(** * Obsidian GitHub Publisher: the reconciliation engine of [src/main.ts]

    A shallow embedding of [publishToGitHub], [gitBlobSha1],
    [getAllFilesInFolder] and [updateLastSyncDate], together with models
    of the platform pieces they call (TextEncoder, Uint8Array,
    crypto.subtle.digest, the Obsidian vault and the GitHub git-data
    API), and the properties of the specification settled against them.

    Conventions.
    - Paths, hashes and messages are [string]s: the code only compares,
      concatenates and prefix-tests them.
    - File contents are JavaScript strings, i.e. sequences of UTF-16 code
      units ([jsstring]), because [gitBlobSha1] encodes them with
      TextEncoder.
    - Bytes (elements of a Uint8Array) and 32-bit words are [Z]. *)

From Stdlib Require Import ZArith Lia Ascii String DecimalString.
From stdpp Require Import base tactics option list gmap strings.

Local Open Scope string_scope.
Local Open Scope list_scope.
Local Open Scope Z_scope.

(** ** Exceptions *)

(** A JavaScript [Error]: only its message is ever inspected. *)
Record Error := mkError { message : string }.

Inductive Result (A : Type) : Type :=
| Ok (a : A)
| Throw (e : Error).
Arguments Ok {A} a.
Arguments Throw {A} e.

Definition rbind {A B} (r : Result A) (k : A -> Result B) : Result B :=
  match r with
  | Ok a => k a
  | Throw e => Throw e
  end.

(** ** JavaScript strings and TextEncoder *)

Module Js.

(** A string value: its UTF-16 code units, each in [0, 0xFFFF]. *)
Definition jsstring := list Z.

(** The code units of an ASCII / Latin-1 literal. *)
Definition lit (s : string) : jsstring :=
  List.map (fun c => Z.of_N (N_of_ascii c)) (list_ascii_of_string s).

Definition is_high (u : Z) : bool := (0xD800 <=? u) && (u <=? 0xDBFF).
Definition is_low (u : Z) : bool := (0xDC00 <=? u) && (u <=? 0xDFFF).

(** Conversion to a sequence of scalar values, as TextEncoder does before
    encoding: a surrogate pair is one code point, an unpaired surrogate
    becomes U+FFFD. *)
Fixpoint code_points (s : jsstring) : list Z :=
  match s with
  | [] => []
  | u :: rest =>
      if is_high u then
        match rest with
        | l :: rest' =>
            if is_low l
            then (0x10000 + (u - 0xD800) * 0x400 + (l - 0xDC00)) :: code_points rest'
            else 0xFFFD :: code_points rest
        | [] => [0xFFFD]
        end
      else if is_low u then 0xFFFD :: code_points rest
      else u :: code_points rest
  end.

(** UTF-8 bytes of one scalar value. *)
Definition utf8_of_code_point (c : Z) : list Z :=
  if c <? 0x80 then [c]
  else if c <? 0x800 then
    [Z.lor 0xC0 (Z.shiftr c 6); Z.lor 0x80 (Z.land c 0x3F)]
  else if c <? 0x10000 then
    [Z.lor 0xE0 (Z.shiftr c 12);
     Z.lor 0x80 (Z.land (Z.shiftr c 6) 0x3F);
     Z.lor 0x80 (Z.land c 0x3F)]
  else
    [Z.lor 0xF0 (Z.shiftr c 18);
     Z.lor 0x80 (Z.land (Z.shiftr c 12) 0x3F);
     Z.lor 0x80 (Z.land (Z.shiftr c 6) 0x3F);
     Z.lor 0x80 (Z.land c 0x3F)].

(** [new TextEncoder().encode(s)]. *)
Definition encode (s : jsstring) : list Z :=
  List.concat (List.map utf8_of_code_point (code_points s)).

(** [String(n)] / template interpolation of a non-negative integer. *)
Definition number_toString (n : nat) : jsstring :=
  lit (NilEmpty.string_of_uint (N.to_uint (N.of_nat n))).

End Js.

(** ** Uint8Array *)

Module Uint8Array.

(** [new Uint8Array(n)]: [n] zero bytes. *)
Definition make (n : nat) : list Z := replicate n 0.

(** [dst.set(src, offset)]: copies [src] into [dst] at [offset]; a
    RangeError is thrown when [src] does not fit. *)
Definition set (dst src : list Z) (offset : nat) : Result (list Z) :=
  if (offset + length src <=? length dst)%nat
  then Ok (take offset dst ++ src ++ drop (offset + length src) dst)
  else Throw (mkError "offset is out of bounds").

End Uint8Array.

(** ** SHA-1 (crypto.subtle.digest("SHA-1", _)), after FIPS 180-4 *)

Module Sha1.

Definition w32 (x : Z) : Z := Z.land x 0xFFFFFFFF.
Definition add32 (x y : Z) : Z := w32 (x + y).
Definition rotl (n x : Z) : Z :=
  w32 (Z.lor (Z.shiftl x n) (Z.shiftr x (32 - n))).

(** Big-endian bytes of the low [8 * n] bits of [x]. *)
Fixpoint be_bytes (n : nat) (x : Z) : list Z :=
  match n with
  | O => []
  | S n' => Z.land (Z.shiftr x (8 * Z.of_nat n')) 0xFF :: be_bytes n' x
  end.

(** Message padding: 0x80, zeros up to 56 mod 64, 64-bit bit length. *)
Definition pad (msg : list Z) : list Z :=
  let len := Z.of_nat (length msg) in
  let k := Z.to_nat ((55 - len) mod 64) in
  msg ++ 0x80 :: List.repeat 0 k ++ be_bytes 8 (8 * len).

Definition word_of_bytes (bs : list Z) : Z :=
  List.fold_left (fun acc b => Z.lor (Z.shiftl acc 8) b) bs 0.

(** Cut a byte sequence into [n] big-endian 32-bit words. *)
Fixpoint words (n : nat) (bs : list Z) : list Z :=
  match n with
  | O => []
  | S n' => word_of_bytes (take 4 bs) :: words n' (drop 4 bs)
  end.

(** Message schedule, most recent word first. *)
Fixpoint extend (n : nat) (rev_ws : list Z) : list Z :=
  match n with
  | O => rev_ws
  | S n' =>
      let w := rotl 1 (Z.lxor (Z.lxor (Z.lxor (List.nth 2 rev_ws 0) (List.nth 7 rev_ws 0))
                                       (List.nth 13 rev_ws 0)) (List.nth 15 rev_ws 0)) in
      extend n' (w :: rev_ws)
  end.

Definition schedule (block : list Z) : list Z :=
  List.rev (extend 64 (List.rev (words 16 block))).

Record state := mkState { ha : Z; hb : Z; hc : Z; hd : Z; he : Z }.

Definition f_k (t : nat) (b c d : Z) : Z * Z :=
  if (t <? 20)%nat then (Z.lor (Z.land b c) (Z.land (Z.lxor b 0xFFFFFFFF) d), 0x5A827999)
  else if (t <? 40)%nat then (Z.lxor (Z.lxor b c) d, 0x6ED9EBA1)
  else if (t <? 60)%nat then
    (Z.lor (Z.lor (Z.land b c) (Z.land b d)) (Z.land c d), 0x8F1BBCDC)
  else (Z.lxor (Z.lxor b c) d, 0xCA62C1D6).

Definition round (t : nat) (w : Z) (s : state) : state :=
  let '(f, k) := f_k t (hb s) (hc s) (hd s) in
  let temp := add32 (add32 (add32 (add32 (rotl 5 (ha s)) f) (he s)) k) w in
  mkState temp (ha s) (rotl 30 (hb s)) (hc s) (hd s).

Fixpoint rounds (t : nat) (ws : list Z) (s : state) : state :=
  match ws with
  | [] => s
  | w :: ws' => rounds (S t) ws' (round t w s)
  end.

Definition compress (h : state) (block : list Z) : state :=
  let s := rounds 0 (schedule block) h in
  mkState (add32 (ha h) (ha s)) (add32 (hb h) (hb s)) (add32 (hc h) (hc s))
          (add32 (hd h) (hd s)) (add32 (he h) (he s)).

Fixpoint blocks (n : nat) (h : state) (bs : list Z) : state :=
  match n with
  | O => h
  | S n' => blocks n' (compress h (take 64 bs)) (drop 64 bs)
  end.

Definition init : state :=
  mkState 0x67452301 0xEFCDAB89 0x98BADCFE 0x10325476 0xC3D2E1F0.

(** The 20 digest bytes of a byte sequence. *)
Definition digest (msg : list Z) : list Z :=
  let p := pad msg in
  let h := blocks (length p / 64) init p in
  be_bytes 4 (ha h) ++ be_bytes 4 (hb h) ++ be_bytes 4 (hc h)
    ++ be_bytes 4 (hd h) ++ be_bytes 4 (he h).

End Sha1.

(** ** Hexadecimal rendering *)

Definition hex_digit (d : Z) : string :=
  String (ascii_of_N (Z.to_N (if d <? 10 then 48 + d else 87 + d))) EmptyString.

(** [b.toString(16)] for a byte [b]. *)
Definition toString16 (b : Z) : string :=
  if b <? 16 then hex_digit b else hex_digit (b / 16) +:+ hex_digit (b mod 16).

(** [s.padStart(2, "0")]. *)
Definition padStart2 (s : string) : string :=
  match String.length s with
  | O => "00"
  | S O => "0" +:+ s
  | _ => s
  end.

(** [bytes.map((b) => b.toString(16).padStart(2, "0")).join("")]. *)
Definition hex (bytes : list Z) : string :=
  String.concat "" (List.map (fun b => padStart2 (toString16 b)) bytes).

(** ** gitBlobSha1 *)

(** [gitBlobSha1(content)], statement by statement. *)
Definition gitBlobSha1 (content : Js.jsstring) : Result string :=
  let contentBytes := Js.encode content in
  let header := Js.lit "blob " ++ Js.number_toString (length contentBytes) ++ [0] in
  let headerBytes := Js.encode header in
  let blob := Uint8Array.make (length headerBytes + length contentBytes) in
  rbind (Uint8Array.set blob headerBytes 0) (fun blob =>
  rbind (Uint8Array.set blob contentBytes (length headerBytes)) (fun blob =>
  let hashBuffer := Sha1.digest blob in
  Ok (hex hashBuffer))).

(** The hash as the specification words it, and as git computes the id
    of a blob: the SHA-1 of the header bytes "blob ", decimal byte
    length, NUL, followed by the UTF-8 bytes of the content. *)
Definition ascii_bytes (s : string) : list Z :=
  List.map (fun c => Z.of_N (N_of_ascii c)) (list_ascii_of_string s).

Definition decimal (n : nat) : string :=
  NilEmpty.string_of_uint (N.to_uint (N.of_nat n)).

Definition git_header (n : nat) : list Z :=
  ascii_bytes "blob " ++ ascii_bytes (decimal n) ++ [0].

Definition blob_hash (content : Js.jsstring) : string :=
  hex (Sha1.digest (git_header (length (Js.encode content)) ++ Js.encode content)).

(** ** The Obsidian vault *)

(** [TAbstractFile]: a [TFile] or a [TFolder] with its children; both
    carry their vault path. *)
#[warnings="-register-all"]
Inductive TAbstractFile : Type :=
| TFile (path : string)
| TFolder (path : string) (children : list TAbstractFile).

(** The vault as the plugin uses it: [getAbstractFileByPath] ([None] is
    [null]) and [read], which may reject. Files are identified by path. *)
Record Vault := mkVault {
  getAbstractFileByPath : string -> option TAbstractFile;
  read : string -> Result Js.jsstring
}.

(** [getAllFilesInFolder(folder)], on the children of [folder]; the
    result lists the paths of the [TFile]s found. *)
Fixpoint filesOf (child : TAbstractFile) : list string :=
  match child with
  | TFile p => [p]
  | TFolder _ children => List.flat_map filesOf children
  end.

Definition getAllFilesInFolder (children : list TAbstractFile) : list string :=
  List.flat_map filesOf children.

(** ** Settings *)

Record Settings := mkSettings {
  githubToken : string;
  repoUrl : string;
  repoFolder : string;
  repoBranch : string;
  selectedPaths : list string;
  syncInterval : Z;
  lastSyncDate : option string
}.

Definition set_lastSyncDate (d : string) (s : Settings) : Settings :=
  mkSettings (githubToken s) (repoUrl s) (repoFolder s) (repoBranch s)
             (selectedPaths s) (syncInterval s) (Some d).

(** *** parseRepoUrl *)

Definition lower (c : ascii) : ascii :=
  let n := N_of_ascii c in
  if ((65 <=? n) && (n <=? 90))%N then ascii_of_N (n + 32) else c.

(** [p] (given in lower case) is a prefix of [s], ignoring ASCII case;
    the rest of [s] is returned. *)
Fixpoint strip_prefix_ci (p s : string) : option string :=
  match p, s with
  | EmptyString, _ => Some s
  | String a p', String b s' =>
      if bool_decide (a = lower b) then strip_prefix_ci p' s' else None
  | String _ _, EmptyString => None
  end.

Definition is_line_terminator (c : ascii) : bool :=
  bool_decide (c = "010"%char) || bool_decide (c = "013"%char).

Fixpoint has_line_terminator (s : string) : bool :=
  match s with
  | EmptyString => false
  | String c s' => is_line_terminator c || has_line_terminator s'
  end.

(** Split at the first "/" (the scan starts after the text already taken
    into the first group). *)
Fixpoint split_slash (s : string) : option (string * string) :=
  match s with
  | EmptyString => None
  | String c s' =>
      if bool_decide (c = "/"%char) then Some (EmptyString, s')
      else match split_slash s' with
           | Some (a, b) => Some (String c a, b)
           | None => None
           end
  end.

(** The lazy group [(.+?)] before [(\.git)?$]: everything but a final
    ".git", which is left out when something precedes it. *)
Fixpoint drop_dot_git (s : string) : string :=
  match s with
  | EmptyString => EmptyString
  | String c s' =>
      if bool_decide (s' = ".git") then String c EmptyString
      else String c (drop_dot_git s')
  end.

(** Match of [(.+?)\/(.+?)(\.git)?$] against all of [r]. *)
Definition owner_repo (r : string) : option (string * string) :=
  if has_line_terminator r then None
  else match r with
       | EmptyString => None
       | String c r' =>
           match split_slash r' with
           | Some (a, EmptyString) => None
           | Some (a, rest) => Some (String c a, drop_dot_git rest)
           | None => None
           end
       end.

Definition match_here (s : string) : option (string * string) :=
  match strip_prefix_ci "github.com" s with
  | Some (String sep r) =>
      if bool_decide (sep = ":"%char) || bool_decide (sep = "/"%char)
      then owner_repo r else None
  | _ => None
  end.

(** [repoUrl.match(/github\.com[:/](.+?)\/(.+?)(\.git)?$/i)]: the
    leftmost position at which the expression matches. *)
Fixpoint url_match (s : string) : option (string * string) :=
  match match_here s with
  | Some m => Some m
  | None =>
      match s with
      | EmptyString => None
      | String _ s' => url_match s'
      end
  end.

Definition parseRepoUrl (repoUrl : string) : Result (string * string) :=
  match url_match repoUrl with
  | None => Throw (mkError "URL de repo GitHub invalide")
  | Some (owner, repo) => Ok (owner, repo)
  end.

(** *** The target folder *)

(** [s.replace(/^\/|\/$/g, "")]: scanning left to right, a match is a
    single "/" that stands at index 0 or at the last index; every match
    is removed. [at_start] tells whether the scan is at index 0. *)
Fixpoint replace_edge_slashes (at_start : bool) (s : string) : string :=
  match s with
  | EmptyString => EmptyString
  | String c rest =>
      if bool_decide (c = "/"%char) && (at_start || bool_decide (rest = EmptyString))
      then replace_edge_slashes false rest
      else String c (replace_edge_slashes false rest)
  end.

Definition normalizeFolder (repoFolder : string) : string :=
  replace_edge_slashes true repoFolder.

(** [repoFolder ? `${repoFolder}/${path}` : path]. *)
Definition repoPathOf (repoFolder path : string) : string :=
  if bool_decide (repoFolder = EmptyString) then path
  else repoFolder +:+ "/" +:+ path.

(** ** Gathering the local files *)

Module LocalFile.
Record t := mk { vaultPath : string; repoPath : string; content : Js.jsstring }.
End LocalFile.

(** A [for (const x of xs)] loop whose body updates a local value and
    may throw. *)
Fixpoint for_of {A S : Type} (xs : list A) (body : A -> S -> Result S) (s : S)
  : Result S :=
  match xs with
  | [] => Ok s
  | x :: xs' => rbind (body x s) (for_of xs' body)
  end.

(** Reading one file and pushing its entry onto [localFiles]. *)
Definition pushFile (v : Vault) (repoFolder path : string)
    (localFiles : list LocalFile.t) : Result (list LocalFile.t) :=
  rbind (read v path) (fun content =>
  Ok (localFiles ++ [LocalFile.mk path (repoPathOf repoFolder path) content])).

(** Lines 165-189: the loop over [pathsToSync]. A path that is neither a
    [TFile] nor a [TFolder] (in particular [null]) takes neither branch. *)
Definition gatherLocalFiles (v : Vault) (repoFolder : string)
    (pathsToSync : list string) : Result (list LocalFile.t) :=
  for_of pathsToSync (fun path localFiles =>
    match getAbstractFileByPath v path with
    | Some (TFile p) => pushFile v repoFolder p localFiles
    | Some (TFolder _ children) =>
        for_of (getAllFilesInFolder children) (pushFile v repoFolder) localFiles
    | None => Ok localFiles
    end) [].

(** ** The remote tree and the mutation list *)

(** An element of [baseTree.data.tree]; every property is optional in
    the response type. *)
Module TreeObj.
Record t := mk {
  path : option string;
  mode : option string;
  type : option string;
  sha : option string
}.
End TreeObj.

(** An element of the [tree] parameter of create-tree. *)
Module TreeItem.
Record t := mk {
  path : string;
  mode : string;
  type : string;
  content : option Js.jsstring;
  sha : option string
}.
End TreeItem.

(** [Map<string, string>]: entries in insertion order; [set] on a present
    key replaces the value in place. *)
Module JsMap.

Definition t := list (string * string).

Fixpoint get (k : string) (m : t) : option string :=
  match m with
  | [] => None
  | (k', v) :: m' => if bool_decide (k' = k) then Some v else get k m'
  end.

Fixpoint set (k v : string) (m : t) : t :=
  match m with
  | [] => [(k, v)]
  | (k', v') :: m' =>
      if bool_decide (k' = k) then (k, v) :: m' else (k', v') :: set k v m'
  end.

Definition keys (m : t) : list string := List.map fst m.

End JsMap.

(** [obj.path === repoFolder || obj.path.startsWith(repoFolder + "/")]. *)
Definition underFolder (repoFolder path : string) : bool :=
  bool_decide (path = repoFolder) || String.prefix (repoFolder +:+ "/") path.

(** [x || ""] on an optional string. *)
Definition or_empty (x : option string) : string :=
  match x with
  | Some s => s
  | None => EmptyString
  end.

(** Lines 212-222: the map of the remote files in the target folder. *)
Definition mapRemoteFiles (repoFolder : string) (tree : list TreeObj.t) : JsMap.t :=
  List.fold_left (fun remoteFiles obj =>
    match TreeObj.path obj with
    | Some p =>
        if bool_decide (TreeObj.type obj = Some "blob")
           && negb (bool_decide (p = EmptyString))
           && underFolder repoFolder p
        then JsMap.set p (or_empty (TreeObj.sha obj)) remoteFiles
        else remoteFiles
    | None => remoteFiles
    end) tree [].

Definition upsertItem (file : LocalFile.t) : TreeItem.t :=
  TreeItem.mk (LocalFile.repoPath file) "100644" "blob"
              (Some (LocalFile.content file)) None.

Definition deleteItem (remotePath : string) : TreeItem.t :=
  TreeItem.mk remotePath "100644" "blob" None (Some EmptyString).

(** Lines 231-243: add or update files whose hash differs. *)
Definition addOrUpdate (remoteFiles : JsMap.t) (localFiles : list LocalFile.t)
    (tree : list TreeItem.t) : Result (list TreeItem.t) :=
  for_of localFiles (fun file tree =>
    let remoteSha := JsMap.get (LocalFile.repoPath file) remoteFiles in
    rbind (gitBlobSha1 (LocalFile.content file)) (fun localSha =>
    if negb (bool_decide (Some localSha = remoteSha))
    then Ok (tree ++ [upsertItem file])
    else Ok tree)) tree.

(** Lines 246-255: delete remote files that are not in [localFiles]. *)
Definition deleteMissing (remoteFiles : JsMap.t) (localRepoPaths : gset string)
    (tree : list TreeItem.t) : list TreeItem.t :=
  List.fold_left (fun tree remotePath =>
    if negb (bool_decide (remotePath ∈ localRepoPaths))
    then tree ++ [deleteItem remotePath]
    else tree) (JsMap.keys remoteFiles) tree.

(** Lines 223-255: the mutation list handed to create-tree. *)
Definition prepareTree (remoteFiles : JsMap.t) (localFiles : list LocalFile.t)
  : Result (list TreeItem.t) :=
  let localRepoPaths : gset string :=
    list_to_set (List.map LocalFile.repoPath localFiles) in
  rbind (addOrUpdate remoteFiles localFiles []) (fun tree =>
  Ok (deleteMissing remoteFiles localRepoPaths tree)).

(** ** The GitHub git-data API

    The repository the settings point at, as far as the five REST calls
    of the plugin can observe it. Commit and tree ids are indices into
    append-only object stores; a tree is its recursive flat listing.
    Create-tree follows section 6 of the specification: an entry with
    inline content stores a blob under the git object hash of the
    content, an entry without content whose [sha] is empty or absent
    removes the path. Directory entries of a listing are left alone, the
    plugin never reads them. *)

Module Remote.

Record commit := mkCommit {
  tree : nat;
  parents : list nat;
  message : string
}.

Record t := mk {
  head : nat;
  commits : list commit;
  trees : list (list TreeObj.t)
}.

Definition notFound {A} : Result A := Throw (mkError "Not Found").

Definition getRef (r : t) : Result nat := Ok (head r).

Definition getCommit (r : t) (commit_sha : nat) : Result nat :=
  match commits r !! commit_sha with
  | Some c => Ok (tree c)
  | None => notFound
  end.

Definition getTree (r : t) (tree_sha : nat) : Result (list TreeObj.t) :=
  match trees r !! tree_sha with
  | Some l => Ok l
  | None => notFound
  end.

Definition hasPath (p : string) (o : TreeObj.t) : bool :=
  bool_decide (TreeObj.path o = Some p).

Definition without (p : string) (listing : list TreeObj.t) : list TreeObj.t :=
  List.filter (fun o => negb (hasPath p o)) listing.

Definition applyItem (listing : list TreeObj.t) (it : TreeItem.t)
  : list TreeObj.t :=
  let p := TreeItem.path it in
  let entry s :=
    TreeObj.mk (Some p) (Some (TreeItem.mode it)) (Some (TreeItem.type it)) (Some s) in
  match TreeItem.content it with
  | Some c => without p listing ++ [entry (blob_hash c)]
  | None =>
      if bool_decide (or_empty (TreeItem.sha it) = EmptyString)
      then without p listing
      else without p listing ++ [entry (or_empty (TreeItem.sha it))]
  end.

Definition applyItems (listing : list TreeObj.t) (items : list TreeItem.t)
  : list TreeObj.t :=
  List.fold_left applyItem items listing.

Definition createTree (r : t) (base_tree : nat) (items : list TreeItem.t)
  : Result (nat * t) :=
  rbind (getTree r base_tree) (fun base =>
  Ok (length (trees r),
      mk (head r) (commits r) (trees r ++ [applyItems base items]))).

Definition createCommit (r : t) (msg : string) (tree_sha : nat)
    (parent_shas : list nat) : Result (nat * t) :=
  Ok (length (commits r),
      mk (head r) (commits r ++ [mkCommit tree_sha parent_shas msg]) (trees r)).

(** Update-ref without [force]: only a fast-forward is accepted. *)
Definition updateRef (r : t) (sha : nat) : Result (unit * t) :=
  match commits r !! sha with
  | Some c =>
      if bool_decide (sha = head r) || bool_decide (head r ∈ parents c)
      then Ok (tt, mk sha (commits r) (trees r))
      else Throw (mkError "Update is not a fast forward")
  | None => Throw (mkError "Object does not exist")
  end.

(** The listing of the tree the branch points at. *)
Definition headTree (r : t) : option (list TreeObj.t) :=
  match commits r !! head r with
  | Some c => trees r !! tree c
  | None => None
  end.

End Remote.

(** ** The plugin's world *)

Inductive Endpoint :=
| EGetRef | EGetCommit | EGetTree | ECreateTree | ECreateCommit | EUpdateRef.

#[global] Instance Endpoint_eq_dec : EqDecision Endpoint.
Proof. solve_decision. Defined.

(** A request sent to the API, with its parameters. *)
Inductive Call :=
| GetRef (owner repo ref : string)
| GetCommit (owner repo : string) (commit_sha : nat)
| GetTree (owner repo : string) (tree_sha : nat)
| CreateTree (owner repo : string) (base_tree : nat) (tree : list TreeItem.t)
| CreateCommit (owner repo msg : string) (tree : nat) (parents : list nat)
| UpdateRef (owner repo ref : string) (sha : nat).

Definition endpointOf (c : Call) : Endpoint :=
  match c with
  | GetRef _ _ _ => EGetRef
  | GetCommit _ _ _ => EGetCommit
  | GetTree _ _ _ => EGetTree
  | CreateTree _ _ _ _ => ECreateTree
  | CreateCommit _ _ _ _ _ => ECreateCommit
  | UpdateRef _ _ _ _ => EUpdateRef
  end.

Definition isWrite (c : Call) : bool :=
  match endpointOf c with
  | ECreateTree | ECreateCommit | EUpdateRef => true
  | _ => false
  end.

(** Everything a publish reads or changes: the in-memory settings, the
    data saved by [saveData], the vault, the remote repository, which
    endpoints currently fail (network, auth, conflict ...) and with which
    error, the current time as [toISOString] prints it, the notices shown
    and the requests sent so far. *)
Record World := mkWorld {
  settings : Settings;
  savedData : option Settings;
  vault : Vault;
  remote : Remote.t;
  faults : Endpoint -> option Error;
  now : string;
  notices : list string;
  calls : list Call
}.

Definition withSettings (s : Settings) (w : World) : World :=
  mkWorld s (savedData w) (vault w) (remote w) (faults w) (now w) (notices w) (calls w).
Definition withSavedData (d : Settings) (w : World) : World :=
  mkWorld (settings w) (Some d) (vault w) (remote w) (faults w) (now w) (notices w) (calls w).
Definition withRemote (r : Remote.t) (w : World) : World :=
  mkWorld (settings w) (savedData w) (vault w) r (faults w) (now w) (notices w) (calls w).
Definition addNotice (n : string) (w : World) : World :=
  mkWorld (settings w) (savedData w) (vault w) (remote w) (faults w) (now w)
          (notices w ++ [n]) (calls w).
Definition addCall (c : Call) (w : World) : World :=
  mkWorld (settings w) (savedData w) (vault w) (remote w) (faults w) (now w)
          (notices w) (calls w ++ [c]).

(** Computations of the plugin: they change the world and return or
    throw. *)
Definition M (A : Type) : Type := World -> World * Result A.

#[global] Instance M_ret : MRet M := fun _ a w => (w, Ok a).
#[global] Instance M_bind : MBind M := fun _ _ k m w =>
  match m w with
  | (w', Ok a) => k a w'
  | (w', Throw e) => (w', Throw e)
  end.

Definition lift {A} (r : Result A) : M A := fun w => (w, r).
Definition getSettings : M Settings := fun w => (w, Ok (settings w)).
Definition getVault : M Vault := fun w => (w, Ok (vault w)).
Definition Notice (msg : string) : M unit := fun w => (addNotice msg w, Ok tt).

(** [try { body } catch (e) { handler(e) }]. *)
Definition tryCatch {A} (body : M A) (handler : Error -> M A) : M A := fun w =>
  match body w with
  | (w', Ok a) => (w', Ok a)
  | (w', Throw e) => handler e w'
  end.

(** One request: it is logged, fails if the endpoint is faulty, and
    otherwise answers from (and may change) the remote repository. *)
Definition request {A} (c : Call) (run : Remote.t -> Result (A * Remote.t)) : M A :=
  fun w =>
    let w := addCall c w in
    match faults w (endpointOf c) with
    | Some e => (w, Throw e)
    | None =>
        match run (remote w) with
        | Ok (a, r') => (withRemote r' w, Ok a)
        | Throw e => (w, Throw e)
        end
    end.

Definition readOnly {A} (f : Remote.t -> Result A) (r : Remote.t)
  : Result (A * Remote.t) :=
  rbind (f r) (fun a => Ok (a, r)).

Module octokit.
Definition getRef (owner repo ref : string) : M nat :=
  request (GetRef owner repo ref) (readOnly Remote.getRef).
Definition getCommit (owner repo : string) (commit_sha : nat) : M nat :=
  request (GetCommit owner repo commit_sha)
          (readOnly (fun r => Remote.getCommit r commit_sha)).
Definition getTree (owner repo : string) (tree_sha : nat) : M (list TreeObj.t) :=
  request (GetTree owner repo tree_sha)
          (readOnly (fun r => Remote.getTree r tree_sha)).
Definition createTree (owner repo : string) (base_tree : nat)
    (tree : list TreeItem.t) : M nat :=
  request (CreateTree owner repo base_tree tree)
          (fun r => Remote.createTree r base_tree tree).
Definition createCommit (owner repo msg : string) (tree : nat)
    (parents : list nat) : M nat :=
  request (CreateCommit owner repo msg tree parents)
          (fun r => Remote.createCommit r msg tree parents).
Definition updateRef (owner repo ref : string) (sha : nat) : M unit :=
  request (UpdateRef owner repo ref sha) (fun r => Remote.updateRef r sha).
End octokit.

(** ** updateLastSyncDate and publishToGitHub *)

(** [saveSettings]: [saveData(this.settings)]; the refresh of the Octokit
    client, of the timer and of the settings tab leave the world alone. *)
Definition saveSettings : M unit := fun w => (withSavedData (settings w) w, Ok tt).

Definition updateLastSyncDate : M unit := fun w =>
  saveSettings (withSettings (set_lastSyncDate (now w) (settings w)) w).

Definition commitMessage : string := "Publish Obsidian → GitHub".

(** The body of the [try] block of [publishToGitHub]. *)
Definition publishBody : M unit :=
  s ← getSettings;
  if bool_decide (githubToken s = EmptyString)
     || bool_decide (repoUrl s = EmptyString)
     || bool_decide (repoBranch s = EmptyString)
  then Notice "GitHub Publisher: invalid settings"
  else
    '(owner, repo) ← lift (parseRepoUrl (repoUrl s));
    let branch := repoBranch s in
    let repoFolder := normalizeFolder (repoFolder s) in
    let pathsToSync := selectedPaths s in
    v ← getVault;
    localFiles ← lift (gatherLocalFiles v repoFolder pathsToSync);
    latestCommitSha ← octokit.getRef owner repo ("heads/" +:+ branch);
    baseTreeSha ← octokit.getCommit owner repo latestCommitSha;
    baseTree ← octokit.getTree owner repo baseTreeSha;
    let remoteFiles := mapRemoteFiles repoFolder baseTree in
    tree ← lift (prepareTree remoteFiles localFiles);
    if bool_decide (length tree = 0%nat)
    then updateLastSyncDate
    else
      newTree ← octokit.createTree owner repo baseTreeSha tree;
      commit ← octokit.createCommit owner repo commitMessage newTree [latestCommitSha];
      octokit.updateRef owner repo ("heads/" +:+ branch) commit;;
      updateLastSyncDate.

Definition publishToGitHub : M unit :=
  tryCatch publishBody (fun e =>
    Notice ("GitHub Publisher: error during publish : " +:+ message e)).

(** ** Notions used in the statements *)

(** The lowercase two-digit rendering of a byte, as the specification
    words the output format. *)
Definition lowerHexDigit (d : Z) : string :=
  match String.get (Z.to_nat d) "0123456789abcdef" with
  | Some c => String c EmptyString
  | None => EmptyString
  end.

Definition lowerHex (bytes : list Z) : string :=
  String.concat "" (List.map (fun b => lowerHexDigit (b / 16) +:+ lowerHexDigit (b mod 16)) bytes).

(** Removal of one leading, then of one trailing "/". *)
Definition stripLeadingSlash (s : string) : string :=
  match s with
  | String "/" rest => rest
  | _ => s
  end.

Fixpoint stripTrailingSlash (s : string) : string :=
  match s with
  | EmptyString => EmptyString
  | String c rest =>
      if bool_decide (c = "/"%char) && bool_decide (rest = EmptyString)
      then EmptyString
      else String c (stripTrailingSlash rest)
  end.

(** A local file differs from what the remote map records for its path. *)
Definition changed (remoteFiles : JsMap.t) (file : LocalFile.t) : bool :=
  negb (bool_decide (Some (blob_hash (LocalFile.content file))
                     = JsMap.get (LocalFile.repoPath file) remoteFiles)).

Definition upserts (remoteFiles : JsMap.t) (localFiles : list LocalFile.t)
  : list TreeItem.t :=
  List.map upsertItem (List.filter (changed remoteFiles) localFiles).

Definition deletions (remoteFiles : JsMap.t) (localFiles : list LocalFile.t)
  : list TreeItem.t :=
  List.map deleteItem
    (List.filter (fun p => negb (bool_decide
        (p ∈ (list_to_set (List.map LocalFile.repoPath localFiles) : gset string))))
      (JsMap.keys remoteFiles)).


(** The entry [o] is a blob at path [p]; the paths of the blobs of a
    listing. *)
Definition isBlobAt (p : string) (o : TreeObj.t) : bool :=
  bool_decide (TreeObj.path o = Some p) && bool_decide (TreeObj.type o = Some "blob").

Definition blobPaths (listing : list TreeObj.t) : list string :=
  List.flat_map (fun o =>
    match TreeObj.path o with
    | Some p => if bool_decide (TreeObj.type o = Some "blob") then [p] else []
    | None => []
    end) listing.

(** The requests sent and the notices shown by a run that started in
    world [w] and ended in world [w']. *)
Definition newCalls (w w' : World) : list Call := drop (length (calls w)) (calls w').
Definition newNotices (w w' : World) : list string := drop (length (notices w)) (notices w').



(** The settings pass the check of lines 144-151. *)
Definition validSettings (s : Settings) : bool :=
  negb (bool_decide (githubToken s = EmptyString)
        || bool_decide (repoUrl s = EmptyString)
        || bool_decide (repoBranch s = EmptyString)).

(** The entries of a listing at path [p], and listings in which every
    path occurs once, as in a git tree. *)
Definition entriesAt (p : string) (listing : list TreeObj.t) : list TreeObj.t :=
  List.filter (Remote.hasPath p) listing.

Definition uniquePaths (listing : list TreeObj.t) : Prop :=
  List.NoDup (omap TreeObj.path listing).

(** The test of lines 214-219 for the entry [o] and the key [p]. *)
Definition selects (repoFolder p : string) (o : TreeObj.t) : bool :=
  bool_decide (TreeObj.path o = Some p)
  && (bool_decide (TreeObj.type o = Some "blob")
      && negb (bool_decide (p = EmptyString))
      && underFolder repoFolder p).

Definition blobEntry (p h : string) : TreeObj.t :=
  TreeObj.mk (Some p) (Some "100644") (Some "blob") (Some h).

(** The mirror invariant for the target folder [repoFolder]: every
    gathered file is on the remote exactly once, as a blob with the hash
    of its content, and every remote blob under the folder is the
    repoPath of a gathered file. *)
Definition mirrors (repoFolder : string) (localFiles : list LocalFile.t)
    (listing : list TreeObj.t) : Prop :=
  (forall e, In e localFiles ->
     exists o, entriesAt (LocalFile.repoPath e) listing = [o]
               /\ TreeObj.type o = Some "blob"
               /\ TreeObj.sha o = Some (blob_hash (LocalFile.content e)))
  /\ (forall o p, In o listing -> TreeObj.path o = Some p ->
        TreeObj.type o = Some "blob" -> underFolder repoFolder p = true ->
        In p (List.map LocalFile.repoPath localFiles)).

(** The repoPath of every entry comes from its vault path, and entries
    with the same repoPath have the same content. *)
Definition pathDetermined (repoFolder : string) (localFiles : list LocalFile.t)
  : Prop :=
  (forall e, In e localFiles ->
     LocalFile.repoPath e = repoPathOf repoFolder (LocalFile.vaultPath e))
  /\ (forall e1 e2, In e1 localFiles -> In e2 localFiles ->
        LocalFile.repoPath e1 = LocalFile.repoPath e2 ->
        LocalFile.content e1 = LocalFile.content e2).

(** An entry as the gather loop builds it from the vault. *)
Definition gatheredFrom (v : Vault) (repoFolder : string) (e : LocalFile.t) : Prop :=
  LocalFile.repoPath e = repoPathOf repoFolder (LocalFile.vaultPath e)
  /\ read v (LocalFile.vaultPath e) = Ok (LocalFile.content e).

(** The same world at a later time. *)
Definition withNow (t : string) (w : World) : World :=
  mkWorld (settings w) (savedData w) (vault w) (remote w) (faults w) t
          (notices w) (calls w).

(** Settings with another target folder or another selection. *)
Definition setFolder (folder : string) (s : Settings) : Settings :=
  mkSettings (githubToken s) (repoUrl s) folder (repoBranch s) (selectedPaths s)
             (syncInterval s) (lastSyncDate s).

Definition setSelected (paths : list string) (s : Settings) : Settings :=
  mkSettings (githubToken s) (repoUrl s) (repoFolder s) (repoBranch s) paths
             (syncInterval s) (lastSyncDate s).

(** What a publish leaves to observe: the remote repository, the
    requests sent, the notices shown, the recorded date and the result. *)
Definition observe (x : World * Result unit)
  : Remote.t * list Call * list string * option string * Result unit :=
  (remote (fst x), calls (fst x), notices (fst x),
   lastSyncDate (settings (fst x)), snd x).

(** ** Scenarios *)

Module Scenario.

Definition blob (p h : string) : TreeObj.t :=
  TreeObj.mk (Some p) (Some "100644") (Some "blob") (Some h).

(** A vault with the note a.md ("hello") and the folder notes holding
    notes/b.md ("bee"). *)
Definition vault : Vault :=
  mkVault
    (fun p =>
       if bool_decide (p = "a.md") then Some (TFile "a.md")
       else if bool_decide (p = "notes/b.md") then Some (TFile "notes/b.md")
       else if bool_decide (p = "notes") then Some (TFolder "notes" [TFile "notes/b.md"])
       else None)
    (fun p =>
       if bool_decide (p = "a.md") then Ok (Js.lit "hello")
       else if bool_decide (p = "notes/b.md") then Ok (Js.lit "bee")
       else Throw (mkError "ENOENT: no such file or directory")).

Definition helloSha : string := "b6fc4c620b67d95f953a5c1c1230aaab5db5a1b0".

(** The remote folder docs holds an up-to-date a.md and a stale old.md. *)
Definition docsListing : list TreeObj.t :=
  [blob "docs/a.md" helloSha; blob "docs/old.md" "3b18e512dba79e4c8300dd08aeb37f8e728b8dad"].

(** A repository whose branch holds README.md only. *)
Definition readmeRepo : Remote.t :=
  Remote.mk 0 [Remote.mkCommit 0 [] "Initial commit"]
            [[blob "README.md" "3b18e512dba79e4c8300dd08aeb37f8e728b8dad"]].

Definition noFault : Endpoint -> option Error := fun _ => None.


Definition world (folder : string) (selected : list string)
    (f : Endpoint -> option Error) : World :=
  mkWorld (mkSettings "ghp_token" "https://github.com/alice/notes" folder "main"
                      selected 60 None)
          None vault readmeRepo f "2025-01-01T00:00:00.000Z" [] [].


(** gone.md was selected but is no longer in the vault. *)
Definition missingPathWorld : World := world "docs" ["gone.md"; "a.md"] noFault.

(** The target folder is empty (the branch root) and a.md is selected;
    the branch holds README.md. *)
Definition rootWorld : World := world "" ["a.md"] noFault.

(** The same world right after a first publish. *)
Definition rootWorldPublished : World := fst (publishToGitHub rootWorld).


(** The target folder is docs; a.md and the folder notes are selected. *)
Definition docsWorld : World := world "docs" ["a.md"; "notes"] noFault.

End Scenario.

(** ** Notions for the addresses of repositories *)


(** A string with its ASCII capitals lowered. *)
Fixpoint lowerString (s : string) : string :=
  match s with
  | EmptyString => EmptyString
  | String c s' => String (lower c) (lowerString s')
  end.

(** ** Notions for the gathered files *)

(** The vault paths the gather loop reads, in order: a selected file,
    the files below a selected folder, nothing for a path the vault does
    not know. *)
Definition selectedFiles (v : Vault) (pathsToSync : list string) : list string :=
  List.flat_map (fun path =>
    match getAbstractFileByPath v path with
    | Some (TFile p) => [p]
    | Some (TFolder _ children) => getAllFilesInFolder children
    | None => []
    end) pathsToSync.

(** The entry the gather loop pushes for the vault path [p]. *)
Definition entryOf (v : Vault) (repoFolder p : string) (e : LocalFile.t) : Prop :=
  LocalFile.vaultPath e = p
  /\ LocalFile.repoPath e = repoPathOf repoFolder p
  /\ read v p = Ok (LocalFile.content e).

(** The vault of the scenarios with a note notes/b.md that cannot be
    read. *)
Definition lockedVault : Vault :=
  mkVault (getAbstractFileByPath Scenario.vault)
          (fun p => if bool_decide (p = "a.md") then Ok (Js.lit "hello")
                    else Throw (mkError "EACCES: permission denied")).

(** A file with path [p] is among [children] or below one of the folders
    among them. *)
Inductive fileBelow (p : string) : list TAbstractFile -> Prop :=
| below_child children :
    In (TFile p) children -> fileBelow p children
| below_folder children q sub :
    In (TFolder q sub) children -> fileBelow p sub -> fileBelow p children.

(** The characters of a lowercase hexadecimal number. *)
Definition isLowerHexChar (c : ascii) : bool :=
  List.existsb (Ascii.eqb c) (list_ascii_of_string "0123456789abcdef").


(** ** The path selector of the settings tab ([multi-path-input.ts]) *)

(** [child.path]. *)
Definition pathOf (file : TAbstractFile) : string :=
  match file with
  | TFile p => p
  | TFolder p _ => p
  end.

(** [s.includes(needle)] on strings. *)
Fixpoint includes (needle s : string) : bool :=
  String.prefix needle s
  || match s with
     | EmptyString => false
     | String _ s' => includes needle s'
     end.

(** A [for ... of] loop whose body starts with a test that returns from
    the enclosing function. *)
Definition forUntil {A S : Type} (stop : S -> bool) (body : A -> S -> S)
  : list A -> S -> S :=
  fix go (xs : list A) (s : S) : S :=
    match xs with
    | [] => s
    | x :: xs' => if stop s then s else go xs' (body x s)
    end.

Module MultiPathInput.

Section Widget.

(** [String.prototype.toLowerCase] and [String.prototype.trim] are taken
    as they come from the platform. *)
Variable toLowerCase : string -> string.
Variable trim : string -> string.

Section Search.

Variable selected : list string.
Variable lowerQuery : string.
Variable limit : nat.

(** The body of the loop of [walk] after its first line, for one child:
    the child is pushed if it matches, then a folder is walked. *)
Fixpoint visit (child : TAbstractFile) (results : list string) : list string :=
  let path := pathOf child in
  let results :=
    if includes lowerQuery (toLowerCase path) && negb (bool_decide (path ∈ selected))
    then results ++ [path] else results in
  match child with
  | TFolder _ children =>
      forUntil (fun results => (limit <=? length results)%nat) visit children results
  | TFile _ => results
  end.

(** [walk(folder)], on the children of [folder]. *)
Definition walk (children : list TAbstractFile) (results : list string)
  : list string :=
  forUntil (fun results => (limit <=? length results)%nat) visit children results.

End Search.

(** [searchVault(query, limit)]; [root] holds the children of
    [app.vault.getRoot()]. *)
Definition searchVault (root : list TAbstractFile) (selected : list string)
    (query : string) (limit : nat) : list string :=
  let lowerQuery := toLowerCase query in
  if bool_decide (lowerQuery = EmptyString) then []
  else walk selected lowerQuery limit root [].

(** The widget: the [selected] array, the text of the input, what the
    suggestion box shows (the options, or the "No results" line), and the
    arrays handed to [onChange]. *)
Record state := mkState {
  selected : list string;
  inputValue : string;
  options : list string;
  noResult : bool;
  changes : list (list string)
}.

(** The widget as [addMultiPathInput] leaves it: the chips of the given
    selection, an empty input and an empty suggestion box. *)
Definition create (selected : list string) : state :=
  mkState selected EmptyString [] false [].

(** [selected.indexOf(path)]; [None] is -1. *)
Fixpoint indexOf (path : string) (l : list string) : option nat :=
  match l with
  | [] => None
  | x :: l' => if bool_decide (x = path) then Some O else S <$> indexOf path l'
  end.

(** [l.splice(idx, 1)]. *)
Definition splice1 (idx : nat) (l : list string) : list string :=
  take idx l ++ drop (S idx) l.

(** The click handler of the remove button of the chip of [path]. *)
Definition removeClick (path : string) (st : state) : state :=
  let selected :=
    match indexOf path (selected st) with
    | Some idx => splice1 idx (selected st)
    | None => selected st
    end in
  mkState selected (inputValue st) (options st) (noResult st)
          (changes st ++ [selected]).

(** [handleInput()]. *)
Definition handleInput (root : list TAbstractFile) (st : state) : state :=
  let val := toLowerCase (trim (inputValue st)) in
  if bool_decide (val = EmptyString)
  then mkState (selected st) (inputValue st) [] false (changes st)
  else
    let results := searchVault root (selected st) val 10 in
    mkState (selected st) (inputValue st) results
            (bool_decide (length results = 0%nat)) (changes st).

(** The click handler of the option of [path]. *)
Definition optionClick (path : string) (st : state) : state :=
  let selected := selected st ++ [path] in
  mkState selected EmptyString [] false (changes st ++ [selected]).

(** What the user and the timers can do to the widget. *)
Inductive event :=
| TypeText (value : string)     (* the text of the input changes *)
| Debounced                   (* the debounce timer fires [handleInput] *)
| ClickOption (i : nat)       (* a click on the i-th option shown *)
| Enter                       (* the Enter key in the input *)
| ClickRemove (i : nat)       (* a click on the remove button of the i-th chip *)
| BlurTimeout.                (* 150 ms after the input lost the focus *)

Definition step (root : list TAbstractFile) (e : event) (st : state) : state :=
  match e with
  | TypeText value =>
      mkState (selected st) value (options st) (noResult st) (changes st)
  | Debounced => handleInput root st
  | ClickOption i =>
      match options st !! i with
      | Some path => optionClick path st
      | None => st
      end
  | Enter =>
      match options st with
      | path :: _ => optionClick path st
      | [] => st
      end
  | ClickRemove i =>
      match selected st !! i with
      | Some path => removeClick path st
      | None => st
      end
  | BlurTimeout =>
      mkState (selected st) (inputValue st) [] false (changes st)
  end.

Definition run (root : list TAbstractFile) (es : list event) (st : state) : state :=
  List.fold_left (fun st e => step root e st) es st.

End Widget.

End MultiPathInput.

(** The root of the vault of the scenarios. *)
Definition vaultRoot : list TAbstractFile :=
  [TFile "a.md"; TFolder "notes" [TFile "notes/b.md"]].

(** What every event keeps: no path is selected twice, and no option
    shown is already selected. *)
Definition widgetInv (st : MultiPathInput.state) : Prop :=
  List.NoDup (MultiPathInput.selected st)
  /\ forall path, In path (MultiPathInput.options st) ->
                  ~ In path (MultiPathInput.selected st).

(** The selection is the selection the widget was created with until
    [onChange] is called, and the array of the last call from then on. *)
Definition inSync (selected0 : list string) (st : MultiPathInput.state) : Prop :=
  MultiPathInput.selected st = default selected0 (last (MultiPathInput.changes st)).

(** Every path below a file or folder, the node itself first
    (depth-first, pre-order). *)
Fixpoint pathsOf (file : TAbstractFile) : list string :=
  pathOf file
  :: match file with
     | TFolder _ children => List.flat_map pathsOf children
     | TFile _ => []
     end.

(** ** The synchronisation timer *)

Module Timer.










End Timer.

(** ** The debounce of the path selector *)

Module Debounce.

(** The timeouts set by [debounce] that have not fired yet, the id the
    next timeout of the window gets, [inputTimeout], and how often a
    timeout has run [handleInput]. *)
Record state := mkState {
  pending : list nat;
  nextId : nat;
  inputTimeout : option nat;
  handled : nat
}.

(** [debounce(fn, delay)]: [if (inputTimeout)] is false for [undefined]
    and for the id 0. *)
Definition debounce (st : state) : state :=
  let pending :=
    match inputTimeout st with
    | Some id =>
        if bool_decide (id = 0%nat) then pending st
        else List.filter (fun t => negb (bool_decide (t = id))) (pending st)
    | None => pending st
    end in
  mkState (pending ++ [nextId st]) (S (nextId st)) (Some (nextId st)) (handled st).

(** The timeout [id] is due: if it is still pending it runs
    [handleInput]. *)
Definition fire (id : nat) (st : state) : state :=
  if bool_decide (id ∈ pending st)
  then mkState (List.filter (fun t => negb (bool_decide (t = id))) (pending st))
               (nextId st) (inputTimeout st) (S (handled st))
  else st.

Inductive event :=
| Input             (* [input.oninput] *)
| Fire (id : nat)   (* the timeout [id] is due *)
| OtherTimer.       (* a timer is set elsewhere in the window *)

Definition step (e : event) (st : state) : state :=
  match e with
  | Input => debounce st
  | Fire id => fire id st
  | OtherTimer =>
      mkState (pending st) (S (nextId st)) (inputTimeout st) (handled st)
  end.

Definition run (es : list event) (st : state) : state :=
  List.fold_left (fun st e => step e st) es st.

Definition isInput (e : event) : bool :=
  match e with
  | Input => true
  | _ => false
  end.

(** Nothing or the timeout of [inputTimeout] is pending, and the ids of
    the window are positive. *)
Definition inv (st : state) : Prop :=
  (0 < nextId st)%nat
  /\ (pending st = []
      \/ exists id, pending st = [id] /\ inputTimeout st = Some id /\ (0 < id)%nat).

End Debounce.

(** * Properties *)

(** ** Sanity checks of the platform models *)

Example sha1_abc :
  hex (Sha1.digest (ascii_bytes "abc")) = "a9993e364706816aba3e25717850c26c9cd0d89d".
Proof. vm_compute. reflexivity. Qed.

Example sha1_two_blocks :
  hex (Sha1.digest (ascii_bytes "abcdbcdecdefdefgefghfghighijhijkijkljklmklmnlmnomnopnopq"))
  = "84983e441c3bd26ebaae4aa1f95129e5e54670f1".
Proof. vm_compute. reflexivity. Qed.

Example blob_hash_empty : blob_hash [] = "e69de29bb2d1d6434b8b29ae775ad8c2e48c5391".
Proof. vm_compute. reflexivity. Qed.

Example blob_hash_hello :
  blob_hash (Js.lit "hello") = "b6fc4c620b67d95f953a5c1c1230aaab5db5a1b0".
Proof. vm_compute. reflexivity. Qed.

Example parseRepoUrl_https :
  parseRepoUrl "https://github.com/alice/notes" = Ok ("alice", "notes").
Proof. reflexivity. Qed.

Example parseRepoUrl_ssh :
  parseRepoUrl "git@GitHub.com:alice/notes.git" = Ok ("alice", "notes").
Proof. reflexivity. Qed.

Example parseRepoUrl_invalid :
  parseRepoUrl "https://example.org/alice/notes"
  = Throw (mkError "URL de repo GitHub invalide").
Proof. reflexivity. Qed.

(** ** Facts about the encoder and the byte buffer *)

Section Encoding.

Lemma code_points_ascii (s : Js.jsstring) :
  Forall (fun u => u < 0x80) s -> Js.code_points s = s.
Proof.
  induction 1 as [|u s Hu _ IH]; [reflexivity|].
  cbn [Js.code_points].
  assert (Js.is_high u = false) as -> by (unfold Js.is_high; lia).
  assert (Js.is_low u = false) as -> by (unfold Js.is_low; lia).
  by rewrite IH.
Qed.

Lemma encode_ascii (s : Js.jsstring) :
  Forall (fun u => u < 0x80) s -> Js.encode s = s.
Proof.
  intros Hs. unfold Js.encode. rewrite (code_points_ascii _ Hs).
  induction Hs as [|u s Hu _ IH]; [reflexivity|].
  cbn [List.map List.concat]. rewrite IH. unfold Js.utf8_of_code_point.
  assert ((u <? 0x80) = true) as -> by lia. reflexivity.
Qed.

Lemma lit_ascii_bytes (s : string) : Js.lit s = ascii_bytes s.
Proof. reflexivity. Qed.

Lemma decimal_digits_ascii (d : Decimal.uint) :
  Forall (fun u => u < 0x80) (ascii_bytes (NilEmpty.string_of_uint d)).
Proof.
  induction d; cbn; constructor; try done; assumption.
Qed.

(** The header string consists of ASCII characters only, so its UTF-8
    encoding is the header itself. *)
Lemma encode_header (n : nat) :
  Js.encode (Js.lit "blob " ++ Js.number_toString n ++ [0]) = git_header n.
Proof.
  unfold git_header, Js.number_toString, decimal. rewrite !lit_ascii_bytes.
  apply encode_ascii.
  apply Forall_app; split; [repeat constructor|].
  apply Forall_app; split; [apply decimal_digits_ascii | repeat constructor].
Qed.

Lemma set_make_prefix (hd : list Z) (n : nat) :
  Uint8Array.set (Uint8Array.make (length hd + n)) hd 0
  = Ok (hd ++ Uint8Array.make n).
Proof.
  unfold Uint8Array.set, Uint8Array.make.
  rewrite length_replicate.
  assert ((0 + length hd <=? length hd + n)%nat = true) as ->
    by (apply Nat.leb_le; lia).
  rewrite take_0, drop_replicate. cbn [Nat.add app].
  do 3 f_equal. lia.
Qed.

Lemma set_suffix (hd tl : list Z) :
  Uint8Array.set (hd ++ Uint8Array.make (length tl)) tl (length hd)
  = Ok (hd ++ tl).
Proof.
  unfold Uint8Array.set, Uint8Array.make.
  rewrite length_app, length_replicate.
  rewrite Nat.leb_refl. f_equal.
  rewrite take_app_length.
  rewrite drop_ge by (rewrite length_app, length_replicate; lia).
  by rewrite app_nil_r.
Qed.

End Encoding.

(** The two [set] calls never go out of range, and the buffer that is
    hashed is the header followed by the content bytes. *)
Lemma gitBlobSha1_blob_hash (content : Js.jsstring) :
  gitBlobSha1 content = Ok (blob_hash content).
Proof.
  unfold gitBlobSha1, blob_hash.
  rewrite encode_header, set_make_prefix. cbn [rbind].
  rewrite set_suffix. reflexivity.
Qed.

(** ** The byte rendering *)

Lemma hex_byte_table :
  List.forallb (fun b => String.eqb (padStart2 (toString16 b))
                           (lowerHexDigit (b / 16) +:+ lowerHexDigit (b mod 16)))
               (List.map Z.of_nat (List.seq 0 256)) = true.
Proof. vm_compute. reflexivity. Qed.

Lemma hex_byte (b : Z) :
  0 <= b < 256 ->
  padStart2 (toString16 b) = lowerHexDigit (b / 16) +:+ lowerHexDigit (b mod 16).
Proof.
  intros Hb. pose proof hex_byte_table as H.
  rewrite List.forallb_forall in H.
  apply String.eqb_eq, H, List.in_map_iff.
  exists (Z.to_nat b). split; [lia|]. apply List.in_seq. lia.
Qed.

Lemma hex_lowerHex (bytes : list Z) :
  Forall (fun b => 0 <= b < 256) bytes -> hex bytes = lowerHex bytes.
Proof.
  intros H. unfold hex, lowerHex. f_equal.
  induction H as [|b l Hb _ IH]; [reflexivity|].
  cbn [List.map]. by rewrite IH, hex_byte.
Qed.

Lemma be_bytes_range (n : nat) (x : Z) :
  Forall (fun b => 0 <= b < 256) (Sha1.be_bytes n x).
Proof.
  induction n as [|n IH]; cbn [Sha1.be_bytes]; constructor; [|exact IH].
  change 255 with (Z.ones 8). rewrite Z.land_ones by lia.
  change (2 ^ 8) with 256. apply Z.mod_pos_bound. lia.
Qed.

Lemma digest_range (msg : list Z) :
  Forall (fun b => 0 <= b < 256) (Sha1.digest msg).
Proof.
  unfold Sha1.digest. repeat (apply Forall_app; split); apply be_bytes_range.
Qed.

Lemma digest_length (msg : list Z) : length (Sha1.digest msg) = 20%nat.
Proof. reflexivity. Qed.

(** C2. For every content, [gitBlobSha1] returns the lowercase
    hexadecimal SHA-1 digest of the bytes of the header "blob ", the
    decimal byte length of the UTF-8 encoding of the content and a NUL
    byte, followed by the UTF-8 bytes of the content. For the empty
    content this is the digest of "blob 0\0" and for "hello" the digest
    of "blob 5\0hello", which are the hashes git gives these blobs. *)
Theorem gitBlobSha1_is_git_blob_hash :
  (forall content : Js.jsstring,
     gitBlobSha1 content
     = Ok (lowerHex (Sha1.digest
             (ascii_bytes "blob " ++ ascii_bytes (decimal (length (Js.encode content)))
                ++ [0] ++ Js.encode content))))
  /\ gitBlobSha1 (Js.lit "") = Ok (lowerHex (Sha1.digest (ascii_bytes "blob 0" ++ [0])))
  /\ gitBlobSha1 (Js.lit "hello")
     = Ok (lowerHex (Sha1.digest (ascii_bytes "blob 5" ++ [0] ++ ascii_bytes "hello")))
  /\ gitBlobSha1 (Js.lit "") = Ok "e69de29bb2d1d6434b8b29ae775ad8c2e48c5391"
  /\ gitBlobSha1 (Js.lit "hello") = Ok "b6fc4c620b67d95f953a5c1c1230aaab5db5a1b0".
Proof.
  assert (forall content : Js.jsstring,
     gitBlobSha1 content
     = Ok (lowerHex (Sha1.digest
             (ascii_bytes "blob " ++ ascii_bytes (decimal (length (Js.encode content)))
                ++ [0] ++ Js.encode content)))) as Hall.
  { intros content. rewrite gitBlobSha1_blob_hash. unfold blob_hash, git_header.
    rewrite hex_lowerHex by apply digest_range.
    by rewrite <- !app_assoc. }
  split; [exact Hall|].
  repeat split; rewrite Hall; vm_compute; reflexivity.
Qed.

(** ** The mutation list *)

Section Reconcile.

Variable remoteFiles : JsMap.t.

Lemma for_of_app {A S} (xs ys : list A) (body : A -> S -> Result S) (s : S) :
  for_of (xs ++ ys) body s = rbind (for_of xs body s) (for_of ys body).
Proof.
  revert s. induction xs as [|x xs IH]; intros s; cbn; [reflexivity|].
  destruct (body x s); cbn; [apply IH | reflexivity].
Qed.

Lemma addOrUpdate_upserts (localFiles : list LocalFile.t) (tree : list TreeItem.t) :
  addOrUpdate remoteFiles localFiles tree = Ok (tree ++ upserts remoteFiles localFiles).
Proof.
  unfold addOrUpdate, upserts. revert tree.
  induction localFiles as [|file l IH]; intros tree; cbn [for_of List.filter List.map].
  - by rewrite app_nil_r.
  - rewrite gitBlobSha1_blob_hash. cbn [rbind]. fold (changed remoteFiles file).
    destruct (changed remoteFiles file); cbn [rbind]; rewrite IH; [|reflexivity].
    cbn [List.map]. by rewrite <- app_assoc.
Qed.

Lemma deleteMissing_filter (paths : gset string) (keys : list string)
    (tree : list TreeItem.t) :
  List.fold_left (fun tree remotePath =>
    if negb (bool_decide (remotePath ∈ paths))
    then tree ++ [deleteItem remotePath] else tree) keys tree
  = tree ++ List.map deleteItem
      (List.filter (fun p => negb (bool_decide (p ∈ paths))) keys).
Proof.
  revert tree. induction keys as [|k keys IH]; intros tree;
    cbn [List.fold_left List.filter List.map].
  - by rewrite app_nil_r.
  - rewrite IH. destruct (negb (bool_decide (k ∈ paths))); [|reflexivity].
    cbn [List.map]. by rewrite <- app_assoc.
Qed.

(** The mutation list is never refused: it is the upserts of the changed
    local files, in order, followed by the deletions. *)
Lemma prepareTree_eq (localFiles : list LocalFile.t) :
  prepareTree remoteFiles localFiles
  = Ok (upserts remoteFiles localFiles ++ deletions remoteFiles localFiles).
Proof.
  unfold prepareTree. rewrite addOrUpdate_upserts. cbn [rbind app].
  unfold deleteMissing. by rewrite deleteMissing_filter.
Qed.



Lemma in_upserts (localFiles : list LocalFile.t) (it : TreeItem.t) :
  In it (upserts remoteFiles localFiles)
  <-> exists file, In file localFiles /\ changed remoteFiles file = true
                   /\ it = upsertItem file.
Proof.
  unfold upserts. rewrite List.in_map_iff. split.
  - intros (file & <- & Hin). apply List.filter_In in Hin as [? ?]. eauto.
  - intros (file & ? & ? & ->). exists file. split; [done|].
    by apply List.filter_In.
Qed.

Lemma in_deletions (localFiles : list LocalFile.t) (it : TreeItem.t) :
  In it (deletions remoteFiles localFiles)
  <-> exists p, In p (JsMap.keys remoteFiles)
                /\ ~ In p (List.map LocalFile.repoPath localFiles)
                /\ it = deleteItem p.
Proof.
  unfold deletions. rewrite List.in_map_iff. split.
  - intros (p & <- & Hin). apply List.filter_In in Hin as [? Hn].
    exists p. repeat split; [done|].
    apply negb_true_iff, bool_decide_eq_false in Hn.
    rewrite elem_of_list_to_set, list_elem_of_In in Hn. exact Hn.
  - intros (p & ? & Hn & ->). exists p. split; [done|].
    apply List.filter_In. split; [done|].
    apply negb_true_iff, bool_decide_eq_false.
    by rewrite elem_of_list_to_set, list_elem_of_In.
Qed.

Lemma upsert_not_delete (file : LocalFile.t) (p : string) :
  upsertItem file <> deleteItem p.
Proof. discriminate. Qed.

End Reconcile.



Lemma filter_none {A} (f : A -> bool) (l : list A) :
  (forall x, In x l -> f x = false) -> List.filter f l = [].
Proof.
  induction l as [|x l IH]; intros H; cbn; [reflexivity|].
  rewrite (H x) by (by left). apply IH. intros y Hy. apply H. by right.
Qed.




(** C4. For every path of the filtered remote map, the mutation list
    contains the deletion entry of that path (a blob entry whose sha is
    the empty string) exactly when the path is not the repoPath of a
    gathered local entry. With docs/a.md and docs/old.md on the remote
    and a selection that maps to an unchanged docs/a.md only, the
    mutation list is the deletion of docs/old.md alone. *)
Theorem delete_iff_not_local :
  (forall (remoteFiles : JsMap.t) (localFiles : list LocalFile.t),
     exists tree,
       prepareTree remoteFiles localFiles = Ok tree
       /\ forall remotePath, In remotePath (JsMap.keys remoteFiles) ->
            (In (TreeItem.mk remotePath "100644" "blob" None (Some "")) tree
             <-> ~ In remotePath (List.map LocalFile.repoPath localFiles)))
  /\ (exists localFiles,
        gatherLocalFiles Scenario.vault (normalizeFolder "docs") ["a.md"] = Ok localFiles
        /\ List.map LocalFile.repoPath localFiles = ["docs/a.md"]
        /\ JsMap.keys (mapRemoteFiles (normalizeFolder "docs") Scenario.docsListing)
           = ["docs/a.md"; "docs/old.md"]
        /\ prepareTree (mapRemoteFiles (normalizeFolder "docs") Scenario.docsListing) localFiles
           = Ok [TreeItem.mk "docs/old.md" "100644" "blob" None (Some "")]).
Proof.
  split.
  - intros remoteFiles localFiles.
    exists (upserts remoteFiles localFiles ++ deletions remoteFiles localFiles).
    split; [apply prepareTree_eq|].
    intros remotePath Hkey. fold (deleteItem remotePath).
    rewrite List.in_app_iff, in_upserts, in_deletions. split.
    + intros [(g & _ & _ & Heq)|(p & _ & Hn & Heq)].
      * symmetry in Heq. by apply upsert_not_delete in Heq.
      * by injection Heq as ->.
    + intros Hn. right. eauto.
  - eexists. split; [vm_compute; reflexivity|].
    repeat split; vm_compute; reflexivity.
Qed.

Lemma delete_iff_not_local_witness :
  exists tree,
    prepareTree [("docs/a.md", Scenario.helloSha); ("docs/old.md", "0000")]
                [LocalFile.mk "a.md" "docs/a.md" (Js.lit "hello")] = Ok tree
    /\ In (TreeItem.mk "docs/old.md" "100644" "blob" None (Some "")) tree.
Proof.
  destruct (proj1 delete_iff_not_local
              [("docs/a.md", Scenario.helloSha); ("docs/old.md", "0000")]
              [LocalFile.mk "a.md" "docs/a.md" (Js.lit "hello")]) as (tree & Ht & Hdel).
  exists tree. split; [exact Ht|].
  apply (Hdel "docs/old.md").
  - cbn. tauto.
  - cbn. intros [H|[]]. discriminate H.
Defined.

(** ** Running a publish *)

Ltac unfold_publish :=
  unfold publishToGitHub, tryCatch, publishBody;
  unfold mbind, M_bind, getSettings, getVault, lift, Notice, updateLastSyncDate,
    saveSettings;
  unfold octokit.getRef, octokit.getCommit, octokit.getTree, octokit.createTree,
    octokit.createCommit, octokit.updateRef, request, readOnly;
  cbn [faults remote addCall addNotice endpointOf settings savedData vault now
       notices calls withRemote withSettings withSavedData].

Ltac world_simpl :=
  cbv beta iota;
  cbn [faults remote addCall addNotice endpointOf settings savedData vault now
       notices calls withRemote withSettings withSavedData rbind Remote.getRef
       fst snd length bool_decide].

Ltac new_lists :=
  unfold newCalls, newNotices;
  cbn [faults remote addCall addNotice endpointOf settings savedData vault now
       notices calls withRemote withSettings withSavedData fst snd];
  rewrite <- ?app_assoc; rewrite ?drop_app_length, ?drop_all;
  cbn [app List.map endpointOf].

(** Follow every branch of the publish. *)
Ltac run_publish :=
  unfold_publish; repeat (case_match; simplify_eq/=).

Lemma updateRef_inv (r r' : Remote.t) (sha : nat) (u : unit) :
  Remote.updateRef r sha = Ok (u, r') ->
  r' = Remote.mk sha (Remote.commits r) (Remote.trees r).
Proof.
  unfold Remote.updateRef. repeat case_match; intros; by simplify_eq.
Qed.








(** The publish depends on the target folder only through
    [normalizeFolder] and on the selection only through the gathered
    entries. *)
Lemma publish_observe_congr (w : World) (s1 s2 : Settings) :
  githubToken s1 = githubToken s2 ->
  repoUrl s1 = repoUrl s2 ->
  repoBranch s1 = repoBranch s2 ->
  lastSyncDate s1 = lastSyncDate s2 ->
  normalizeFolder (repoFolder s1) = normalizeFolder (repoFolder s2) ->
  gatherLocalFiles (vault w) (normalizeFolder (repoFolder s1)) (selectedPaths s1)
  = gatherLocalFiles (vault w) (normalizeFolder (repoFolder s2)) (selectedPaths s2) ->
  observe (publishToGitHub (withSettings s1 w))
  = observe (publishToGitHub (withSettings s2 w)).
Proof.
  destruct w as [s0 sd v r f n ns cs].
  destruct s1 as [tok1 url1 fol1 br1 sel1 si1 d1], s2 as [tok2 url2 fol2 br2 sel2 si2 d2].
  cbn [githubToken repoUrl repoFolder repoBranch selectedPaths lastSyncDate vault].
  intros -> -> -> -> Hnorm Hgather.
  unfold observe. cbn [withSettings settings savedData vault remote faults now notices calls].
  unfold_publish.
  cbn [githubToken repoUrl repoFolder repoBranch selectedPaths syncInterval lastSyncDate].
  destruct (_ || _ || _); [reflexivity|].
  destruct (parseRepoUrl url2) as [[owner repo]|e]; [|reflexivity].
  world_simpl. rewrite Hgather, Hnorm. clear Hgather Hnorm.
  destruct (gatherLocalFiles v (normalizeFolder fol2) sel2) as [lfs|e]; [|reflexivity].
  world_simpl.
  destruct (f EGetRef); [reflexivity|]. world_simpl.
  destruct (f EGetCommit); [reflexivity|]. world_simpl.
  destruct (Remote.getCommit r (Remote.head r)) as [t|e]; [|reflexivity]. world_simpl.
  destruct (f EGetTree); [reflexivity|]. world_simpl.
  destruct (Remote.getTree r t) as [base|e]; [|reflexivity]. world_simpl.
  destruct (prepareTree _ _) as [tree|e]; [|reflexivity]. world_simpl.
  destruct (bool_decide _); [reflexivity|]. world_simpl.
  destruct (f ECreateTree); [reflexivity|]. world_simpl.
  destruct (Remote.createTree r t tree) as [[nt r1]|e]; [|reflexivity]. world_simpl.
  destruct (f ECreateCommit); [reflexivity|]. world_simpl.
  unfold Remote.createCommit. world_simpl.
  destruct (f EUpdateRef); [reflexivity|]. world_simpl.
  destruct (Remote.updateRef _ _) as [[u r2]|e]; reflexivity.
Qed.

(** ** Gathering *)



(** A selected path for which the vault returns [null] leaves
    [localFiles] as it is. *)
Lemma gather_skips (v : Vault) (repoFolder : string) (before after : list string)
    (path : string) :
  getAbstractFileByPath v path = None ->
  gatherLocalFiles v repoFolder (before ++ path :: after)
  = gatherLocalFiles v repoFolder (before ++ after).
Proof.
  intros Hnull. unfold gatherLocalFiles. rewrite !for_of_app.
  destruct (for_of before _ []) as [acc|e]; [|reflexivity].
  cbn [rbind for_of]. by rewrite Hnull.
Qed.


Lemma for_of_shift {A B : Type} (xs : list A)
    (body : A -> list B -> Result (list B)) :
  (forall x acc, body x acc = rbind (body x []) (fun l => Ok (acc ++ l))) ->
  forall acc, for_of xs body acc = rbind (for_of xs body []) (fun l => Ok (acc ++ l)).
Proof.
  intros Hbody. induction xs as [|x xs IH]; intros acc; cbn [for_of rbind].
  - by rewrite app_nil_r.
  - rewrite Hbody. destruct (body x []) as [l|e]; cbn [rbind]; [|reflexivity].
    rewrite (IH (acc ++ l)), (IH l).
    destruct (for_of xs body []) as [m|e]; cbn [rbind]; [|reflexivity].
    by rewrite app_assoc.
Qed.

Lemma pushFile_shift (v : Vault) (repoFolder path : string) (acc : list LocalFile.t) :
  pushFile v repoFolder path acc
  = rbind (pushFile v repoFolder path []) (fun l => Ok (acc ++ l)).
Proof. unfold pushFile. by destruct (read v path). Qed.

(** The entries of a selection are those of its first paths followed by
    those of the remaining paths: nothing is merged. *)
Lemma gather_app (v : Vault) (repoFolder : string) (paths paths' : list string) :
  gatherLocalFiles v repoFolder (paths ++ paths')
  = rbind (gatherLocalFiles v repoFolder paths) (fun l =>
    rbind (gatherLocalFiles v repoFolder paths') (fun l' => Ok (l ++ l'))).
Proof.
  unfold gatherLocalFiles. rewrite for_of_app.
  destruct (for_of paths _ []) as [l|e]; cbn [rbind]; [|reflexivity].
  apply for_of_shift. intros path acc.
  destruct (getAbstractFileByPath v path) as [[p|p children]|].
  - apply pushFile_shift.
  - apply for_of_shift. intros. apply pushFile_shift.
  - cbn [rbind]. by rewrite app_nil_r.
Qed.



(** C8, as the code has it. gone.md is selected and cannot be resolved;
    the publish does not abort: it shows no notice, mirrors a.md alone
    and records the synchronisation date. *)
Lemma missing_path_counterexample :
  getAbstractFileByPath (vault Scenario.missingPathWorld) "gone.md" = None
  /\ snd (publishToGitHub Scenario.missingPathWorld) = Ok tt
  /\ notices (fst (publishToGitHub Scenario.missingPathWorld)) = []
  /\ lastSyncDate (settings (fst (publishToGitHub Scenario.missingPathWorld)))
     = Some (now Scenario.missingPathWorld)
  /\ Remote.headTree (remote (fst (publishToGitHub Scenario.missingPathWorld)))
     = Some [Scenario.blob "README.md" "3b18e512dba79e4c8300dd08aeb37f8e728b8dad";
             Scenario.blob "docs/a.md" Scenario.helloSha].
Proof. repeat split; vm_compute; reflexivity. Qed.

Lemma withSettings_same (w : World) : withSettings (settings w) w = w.
Proof. by destruct w. Qed.

(** C8, amended. A selected path that resolves to neither a file nor a
    folder is skipped: the gathered entries are those of the selection
    without that path, and the publish proceeds exactly as it does for
    the selection without that path (same requests, same remote
    repository afterwards, same notices, date and result). *)
Theorem unresolved_path_is_skipped (w : World) (before after : list string)
    (path : string) :
  getAbstractFileByPath (vault w) path = None ->
  selectedPaths (settings w) = before ++ path :: after ->
  gatherLocalFiles (vault w) (normalizeFolder (repoFolder (settings w)))
                   (selectedPaths (settings w))
  = gatherLocalFiles (vault w) (normalizeFolder (repoFolder (settings w)))
                     (before ++ after)
  /\ observe (publishToGitHub w)
     = observe (publishToGitHub
                  (withSettings (setSelected (before ++ after) (settings w)) w)).
Proof.
  intros Hnull Hsel.
  assert (gatherLocalFiles (vault w) (normalizeFolder (repoFolder (settings w)))
                           (selectedPaths (settings w))
          = gatherLocalFiles (vault w) (normalizeFolder (repoFolder (settings w)))
                             (before ++ after)) as Hgather
    by (rewrite Hsel; by apply gather_skips).
  split; [exact Hgather|].
  rewrite <- (withSettings_same w) at 1.
  by apply publish_observe_congr.
Qed.

Lemma unresolved_path_is_skipped_witness :
  gatherLocalFiles Scenario.vault "docs" ["gone.md"; "a.md"]
  = gatherLocalFiles Scenario.vault "docs" ["a.md"]
  /\ observe (publishToGitHub Scenario.missingPathWorld)
     = observe (publishToGitHub (Scenario.world "docs" ["a.md"] Scenario.noFault)).
Proof.
  apply (unresolved_path_is_skipped Scenario.missingPathWorld [] ["a.md"] "gone.md");
    reflexivity.
Defined.

(** ** The target folder *)

Lemma replace_edge_slashes_inner (s : string) :
  replace_edge_slashes false s = stripTrailingSlash s.
Proof.
  induction s as [|c s IH]; [reflexivity|].
  cbn [replace_edge_slashes stripTrailingSlash orb]. rewrite IH.
  destruct (bool_decide (c = "/"%char) && bool_decide (s = EmptyString)) eqn:E;
    [|reflexivity].
  apply andb_true_iff in E as [_ ->%bool_decide_eq_true]. reflexivity.
Qed.

Lemma normalizeFolder_strips (s : string) :
  normalizeFolder s = stripTrailingSlash (stripLeadingSlash s).
Proof.
  unfold normalizeFolder. destruct s as [|c s]; [reflexivity|].
  cbn [replace_edge_slashes orb]. rewrite andb_true_r, replace_edge_slashes_inner.
  destruct (bool_decide (c = "/"%char)) eqn:E.
  - apply bool_decide_eq_true in E as ->. reflexivity.
  - apply bool_decide_eq_false in E.
    assert (stripLeadingSlash (String c s) = String c s) as ->.
    { unfold stripLeadingSlash.
      destruct c as [[] [] [] [] [] [] [] []]; try reflexivity. by destruct E. }
    cbn [stripTrailingSlash].
    rewrite (proj2 (bool_decide_eq_false _)) by done. reflexivity.
Qed.

(** C10. The target folder is used only through [normalizeFolder], which
    removes one leading and one trailing slash when present. The settings
    "docs", "/docs", "docs/" and "/docs/" all give the folder "docs",
    hence the same gathered entries (and remote paths), the same map of
    remote files and the same publish altogether, whereas "//docs" gives
    "/docs". *)
Theorem normalizeFolder_docs :
  (forall s, normalizeFolder s = stripTrailingSlash (stripLeadingSlash s))
  /\ normalizeFolder "docs" = "docs"
  /\ normalizeFolder "/docs" = "docs"
  /\ normalizeFolder "docs/" = "docs"
  /\ normalizeFolder "/docs/" = "docs"
  /\ normalizeFolder "//docs" = "/docs"
  /\ normalizeFolder "//docs" <> normalizeFolder "docs"
  /\ (forall s v paths,
        In s ["docs"; "/docs"; "docs/"; "/docs/"] ->
        gatherLocalFiles v (normalizeFolder s) paths = gatherLocalFiles v "docs" paths)
  /\ (forall s listing,
        In s ["docs"; "/docs"; "docs/"; "/docs/"] ->
        mapRemoteFiles (normalizeFolder s) listing = mapRemoteFiles "docs" listing)
  /\ (forall s path,
        In s ["docs"; "/docs"; "docs/"; "/docs/"] ->
        repoPathOf (normalizeFolder s) path = "docs/" +:+ path)
  /\ (forall s w,
        In s ["docs"; "/docs"; "docs/"; "/docs/"] ->
        observe (publishToGitHub (withSettings (setFolder s (settings w)) w))
        = observe (publishToGitHub (withSettings (setFolder "docs" (settings w)) w))).
Proof.
  split; [exact normalizeFolder_strips|].
  do 5 (split; [reflexivity|]).
  split; [vm_compute; discriminate|].
  repeat split.
  - intros s v paths Hs. cbn in Hs.
    destruct Hs as [<-|[<-|[<-|[<-|[]]]]]; reflexivity.
  - intros s listing Hs. cbn in Hs.
    destruct Hs as [<-|[<-|[<-|[<-|[]]]]]; reflexivity.
  - intros s path Hs. cbn in Hs.
    destruct Hs as [<-|[<-|[<-|[<-|[]]]]]; reflexivity.
  - intros s w Hs. cbn in Hs.
    destruct Hs as [<-|[<-|[<-|[<-|[]]]]];
      apply publish_observe_congr; reflexivity.
Qed.

Lemma normalizeFolder_docs_witness :
  gatherLocalFiles Scenario.vault (normalizeFolder "/docs/") ["a.md"]
  = gatherLocalFiles Scenario.vault "docs" ["a.md"].
Proof.
  destruct normalizeFolder_docs as (_ & _ & _ & _ & _ & _ & _ & H & _).
  apply H. right. right. right. left. reflexivity.
Defined.

(** ** The empty mutation list *)

(** When the reads succeed and the mutation list is empty, the publish
    sends the three reads and nothing else, leaves the remote alone,
    records the date and returns. *)
Lemma empty_tree_short_circuit (w : World) (owner repo : string)
    (localFiles : list LocalFile.t) (treeSha : nat) (baseTree : list TreeObj.t) :
  validSettings (settings w) = true ->
  parseRepoUrl (repoUrl (settings w)) = Ok (owner, repo) ->
  gatherLocalFiles (vault w) (normalizeFolder (repoFolder (settings w)))
                   (selectedPaths (settings w)) = Ok localFiles ->
  faults w EGetRef = None -> faults w EGetCommit = None -> faults w EGetTree = None ->
  Remote.getCommit (remote w) (Remote.head (remote w)) = Ok treeSha ->
  Remote.getTree (remote w) treeSha = Ok baseTree ->
  prepareTree (mapRemoteFiles (normalizeFolder (repoFolder (settings w))) baseTree)
              localFiles = Ok [] ->
  snd (publishToGitHub w) = Ok tt
  /\ newCalls w (fst (publishToGitHub w))
     = [GetRef owner repo ("heads/" +:+ repoBranch (settings w));
        GetCommit owner repo (Remote.head (remote w));
        GetTree owner repo treeSha]
  /\ List.filter isWrite (newCalls w (fst (publishToGitHub w))) = []
  /\ remote (fst (publishToGitHub w)) = remote w
  /\ settings (fst (publishToGitHub w)) = set_lastSyncDate (now w) (settings w)
  /\ savedData (fst (publishToGitHub w)) = Some (set_lastSyncDate (now w) (settings w))
  /\ newNotices w (fst (publishToGitHub w)) = [].
Proof.
  destruct w. unfold validSettings.
  cbn [faults remote settings savedData vault now notices calls].
  intros Hvalid%negb_true_iff Hparse Hgather Hf1 Hf2 Hf3 Hcommit Htree Hprep.
  unfold_publish. rewrite Hvalid, Hparse. world_simpl.
  rewrite Hgather. world_simpl. rewrite Hf1. world_simpl.
  rewrite Hf2, Hcommit. world_simpl. rewrite Hf3, Htree. world_simpl.
  rewrite Hprep. world_simpl. rewrite bool_decide_eq_true_2 by reflexivity.
  world_simpl. new_lists. repeat split; reflexivity.
Qed.

(** ** The map of remote files *)

Section RemoteMap.

Lemma get_set (k k' v : string) (m : JsMap.t) :
  JsMap.get k' (JsMap.set k v m)
  = if bool_decide (k = k') then Some v else JsMap.get k' m.
Proof.
  induction m as [|[k0 v0] m IH]; cbn [JsMap.set JsMap.get].
  - reflexivity.
  - destruct (decide (k0 = k)) as [->|Hne].
    + rewrite bool_decide_eq_true_2 by done. cbn [JsMap.get].
      destruct (bool_decide (k = k')); reflexivity.
    + rewrite (bool_decide_eq_false_2 _ Hne). cbn [JsMap.get]. rewrite IH.
      destruct (decide (k0 = k')) as [->|Hne'].
      * rewrite (bool_decide_eq_true_2 (k' = k') eq_refl).
        by rewrite bool_decide_eq_false_2 by congruence.
      * by rewrite (bool_decide_eq_false_2 _ Hne').
Qed.

Lemma in_keys_get (k : string) (m : JsMap.t) :
  In k (JsMap.keys m) <-> JsMap.get k m <> None.
Proof.
  unfold JsMap.keys. induction m as [|[k0 v0] m IH]; cbn [List.map JsMap.get fst In].
  - split; [tauto | congruence].
  - destruct (bool_decide (k0 = k)) eqn:E.
    + apply bool_decide_eq_true in E. split; [congruence | auto].
    + apply bool_decide_eq_false in E. rewrite <- IH. tauto.
Qed.

Lemma mapRemoteFiles_snoc (repoFolder : string) (listing : list TreeObj.t)
    (o : TreeObj.t) :
  mapRemoteFiles repoFolder (listing ++ [o])
  = match TreeObj.path o with
    | Some p =>
        if selects repoFolder p o
        then JsMap.set p (or_empty (TreeObj.sha o)) (mapRemoteFiles repoFolder listing)
        else mapRemoteFiles repoFolder listing
    | None => mapRemoteFiles repoFolder listing
    end.
Proof.
  unfold mapRemoteFiles. rewrite List.fold_left_app. cbn [List.fold_left].
  destruct (TreeObj.path o) as [p|] eqn:Hp; [|reflexivity].
  unfold selects. rewrite Hp, (bool_decide_eq_true_2 _ eq_refl). reflexivity.
Qed.

(** The value recorded for a key is the sha of the last entry of the
    listing that passes the test for this key. *)
Lemma get_mapRemoteFiles (repoFolder p : string) (listing : list TreeObj.t) :
  JsMap.get p (mapRemoteFiles repoFolder listing)
  = option_map (fun o => or_empty (TreeObj.sha o))
               (last (List.filter (selects repoFolder p) listing)).
Proof.
  induction listing as [|o l IH] using rev_ind; [reflexivity|].
  rewrite mapRemoteFiles_snoc, List.filter_app. cbn [List.filter].
  destruct (TreeObj.path o) as [q|] eqn:Hq.
  - destruct (selects repoFolder q o) eqn:Hsel.
    + rewrite get_set. destruct (bool_decide (q = p)) eqn:E.
      * apply bool_decide_eq_true in E as ->. rewrite Hsel, last_snoc. reflexivity.
      * apply bool_decide_eq_false in E.
        assert (selects repoFolder p o = false) as ->.
        { unfold selects. rewrite Hq, bool_decide_eq_false_2; [done|congruence]. }
        by rewrite app_nil_r.
    + assert (selects repoFolder p o = false) as ->.
      { destruct (decide (q = p)) as [<-|Hne]; [done|].
        unfold selects. rewrite Hq, bool_decide_eq_false_2; [done|congruence]. }
      by rewrite app_nil_r.
  - assert (selects repoFolder p o = false) as ->.
    { unfold selects. rewrite Hq, bool_decide_eq_false_2; done. }
    by rewrite app_nil_r.
Qed.

Lemma selects_hasPath (repoFolder p : string) (o : TreeObj.t) :
  selects repoFolder p o = true -> Remote.hasPath p o = true.
Proof. unfold selects, Remote.hasPath. by intros [? _]%andb_true_iff. Qed.

Lemma filter_selects_entriesAt (repoFolder p : string) (listing : list TreeObj.t) :
  List.filter (selects repoFolder p) listing
  = List.filter (selects repoFolder p) (entriesAt p listing).
Proof.
  unfold entriesAt. induction listing as [|o l IH]; [reflexivity|].
  cbn [List.filter]. destruct (selects repoFolder p o) eqn:Hsel.
  - rewrite (selects_hasPath _ _ _ Hsel). cbn [List.filter]. by rewrite Hsel, IH.
  - destruct (Remote.hasPath p o); [|exact IH]. cbn [List.filter]. by rewrite Hsel.
Qed.

Lemma get_mapRemoteFiles_Some (repoFolder p h : string) (listing : list TreeObj.t) :
  JsMap.get p (mapRemoteFiles repoFolder listing) = Some h ->
  exists o, In o (entriesAt p listing) /\ selects repoFolder p o = true
            /\ or_empty (TreeObj.sha o) = h.
Proof.
  rewrite get_mapRemoteFiles, filter_selects_entriesAt.
  destruct (last _) as [o|] eqn:Hlast; [|discriminate].
  intros [= <-]. exists o.
  assert (In o (List.filter (selects repoFolder p) (entriesAt p listing))) as Hin.
  { apply list_elem_of_In, list_elem_of_lookup. rewrite last_lookup in Hlast. eauto. }
  apply List.filter_In in Hin as [? ?]. auto.
Qed.

Lemma get_mapRemoteFiles_None (repoFolder p : string) (listing : list TreeObj.t)
    (o : TreeObj.t) :
  In o listing -> selects repoFolder p o = true ->
  JsMap.get p (mapRemoteFiles repoFolder listing) <> None.
Proof.
  intros Hin Hsel. rewrite get_mapRemoteFiles.
  destruct (last _) eqn:Hlast; [discriminate|].
  apply last_None in Hlast.
  assert (In o (List.filter (selects repoFolder p) listing)) as Hin'
    by (by apply List.filter_In).
  rewrite Hlast in Hin'. destruct Hin'.
Qed.

Lemma get_mapRemoteFiles_single (repoFolder p : string) (listing : list TreeObj.t)
    (o : TreeObj.t) :
  entriesAt p listing = [o] -> selects repoFolder p o = true ->
  JsMap.get p (mapRemoteFiles repoFolder listing) = Some (or_empty (TreeObj.sha o)).
Proof.
  intros Hat Hsel. rewrite get_mapRemoteFiles, filter_selects_entriesAt, Hat.
  cbn [List.filter]. by rewrite Hsel.
Qed.

End RemoteMap.

(** ** Applying a mutation list *)

Section Apply.

Lemma entriesAt_without (p q : string) (listing : list TreeObj.t) :
  entriesAt p (Remote.without q listing)
  = if bool_decide (q = p) then [] else entriesAt p listing.
Proof.
  unfold entriesAt, Remote.without, Remote.hasPath.
  destruct (decide (q = p)) as [->|Hne].
  - rewrite bool_decide_eq_true_2 by done.
    induction listing as [|o l IH]; [reflexivity|]. cbn [List.filter].
    destruct (bool_decide (TreeObj.path o = Some p)) eqn:E; cbn [negb List.filter];
      [exact IH|]. by rewrite E.
  - rewrite bool_decide_eq_false_2 by done.
    induction listing as [|o l IH]; [reflexivity|]. cbn [List.filter].
    destruct (decide (TreeObj.path o = Some q)) as [Hq|Hq].
    + rewrite (bool_decide_eq_true_2 _ Hq). cbn [negb].
      rewrite (bool_decide_eq_false_2 (TreeObj.path o = Some p)) by congruence.
      exact IH.
    + rewrite (bool_decide_eq_false_2 _ Hq). cbn [negb List.filter].
      by rewrite IH.
Qed.

Lemma entriesAt_app (p : string) (l1 l2 : list TreeObj.t) :
  entriesAt p (l1 ++ l2) = entriesAt p l1 ++ entriesAt p l2.
Proof. apply List.filter_app. Qed.

Lemma entriesAt_applyItem_upsert (p : string) (listing : list TreeObj.t)
    (file : LocalFile.t) :
  entriesAt p (Remote.applyItem listing (upsertItem file))
  = if bool_decide (LocalFile.repoPath file = p)
    then [blobEntry p (blob_hash (LocalFile.content file))]
    else entriesAt p listing.
Proof.
  unfold Remote.applyItem, upsertItem.
  cbn [TreeItem.content TreeItem.path TreeItem.mode TreeItem.type].
  rewrite entriesAt_app, entriesAt_without. unfold entriesAt at 2.
  cbn [List.filter]. unfold Remote.hasPath. cbn [TreeObj.path].
  destruct (decide (LocalFile.repoPath file = p)) as [->|Hne].
  - by rewrite !bool_decide_eq_true_2.
  - rewrite !bool_decide_eq_false_2 by congruence. by rewrite app_nil_r.
Qed.

Lemma entriesAt_applyItem_delete (p q : string) (listing : list TreeObj.t) :
  entriesAt p (Remote.applyItem listing (deleteItem q))
  = if bool_decide (q = p) then [] else entriesAt p listing.
Proof.
  unfold Remote.applyItem, deleteItem.
  cbn [TreeItem.content TreeItem.path TreeItem.sha or_empty].
  rewrite bool_decide_eq_true_2 by done. apply entriesAt_without.
Qed.

Lemma applyItems_app (listing : list TreeObj.t) (xs ys : list TreeItem.t) :
  Remote.applyItems listing (xs ++ ys)
  = Remote.applyItems (Remote.applyItems listing xs) ys.
Proof. apply List.fold_left_app. Qed.

(** After upserts of files whose content is determined by their path,
    a path that was written holds exactly the new blob and any other
    path holds what it held. *)
Lemma entriesAt_upserts (files : list LocalFile.t) (listing : list TreeObj.t)
    (p : string) :
  (forall e1 e2, In e1 files -> In e2 files ->
     LocalFile.repoPath e1 = LocalFile.repoPath e2 ->
     LocalFile.content e1 = LocalFile.content e2) ->
  entriesAt p (Remote.applyItems listing (List.map upsertItem files))
  = match List.find (fun e => bool_decide (LocalFile.repoPath e = p)) files with
    | Some e => [blobEntry p (blob_hash (LocalFile.content e))]
    | None => entriesAt p listing
    end.
Proof.
  revert listing. induction files as [|f files IH]; intros listing Hcons;
    [reflexivity|].
  cbn [List.map List.find]. unfold Remote.applyItems in *. cbn [List.fold_left].
  rewrite IH by (intros; apply Hcons; auto using List.in_cons).
  destruct (List.find _ files) as [e|] eqn:Hfind.
  - destruct (bool_decide (LocalFile.repoPath f = p)) eqn:E; [|reflexivity].
    apply bool_decide_eq_true in E. apply List.find_some in Hfind as [Hin He].
    apply bool_decide_eq_true in He.
    rewrite (Hcons f e); [reflexivity|by left|by right|congruence].
  - rewrite entriesAt_applyItem_upsert.
    by destruct (bool_decide (LocalFile.repoPath f = p)).
Qed.

Lemma entriesAt_deletes (ps : list string) (listing : list TreeObj.t) (p : string) :
  entriesAt p (Remote.applyItems listing (List.map deleteItem ps))
  = if bool_decide (p ∈ ps) then [] else entriesAt p listing.
Proof.
  revert listing. induction ps as [|q ps IH]; intros listing.
  - by rewrite bool_decide_eq_false_2 by apply not_elem_of_nil.
  - cbn [List.map]. unfold Remote.applyItems in *. cbn [List.fold_left].
    rewrite IH. destruct (decide (p ∈ ps)) as [Hin|Hnin].
    + rewrite !bool_decide_eq_true_2; [done|by apply elem_of_cons; right|done].
    + rewrite (bool_decide_eq_false_2 _ Hnin), entriesAt_applyItem_delete.
      destruct (decide (q = p)) as [->|Hne].
      * rewrite !bool_decide_eq_true_2; [done|by apply elem_of_cons; left|done].
      * rewrite !bool_decide_eq_false_2; [done| |done].
        rewrite elem_of_cons. by intros [?|?].
Qed.

End Apply.

(** ** The mirror invariant for a target folder that is not the root *)

Section Mirror.

Lemma padStart2_nonempty (s : string) : padStart2 s <> EmptyString.
Proof.
  unfold padStart2. destruct s as [|c [|c' s]]; cbn; discriminate.
Qed.

Lemma hex_nonempty (b : Z) (bytes : list Z) : hex (b :: bytes) <> EmptyString.
Proof.
  unfold hex. cbn [List.map String.concat].
  pose proof (padStart2_nonempty (toString16 b)) as H.
  destruct (padStart2 (toString16 b)) as [|c s]; [done|].
  destruct (List.map _ bytes); cbn; discriminate.
Qed.

Lemma blob_hash_nonempty (content : Js.jsstring) : blob_hash content <> EmptyString.
Proof. unfold blob_hash, Sha1.digest. cbn [Sha1.be_bytes app]. apply hex_nonempty. Qed.

Lemma or_empty_Some (x : option string) (h : string) :
  h <> EmptyString -> or_empty x = h -> x = Some h.
Proof. destruct x; cbn; congruence. Qed.

Lemma in_entriesAt (p : string) (o : TreeObj.t) (listing : list TreeObj.t) :
  In o (entriesAt p listing) <-> In o listing /\ TreeObj.path o = Some p.
Proof.
  unfold entriesAt, Remote.hasPath. rewrite List.filter_In.
  by rewrite bool_decide_eq_true.
Qed.

Lemma uniquePaths_entriesAt (p : string) (o : TreeObj.t) (listing : list TreeObj.t) :
  uniquePaths listing -> In o (entriesAt p listing) -> entriesAt p listing = [o].
Proof.
  unfold uniquePaths. induction listing as [|x l IH]; [intros _ []|].
  intros Hnd Hin. unfold entriesAt in *. cbn [List.filter] in *.
  cbn [omap list_omap] in Hnd. fold (omap TreeObj.path l) in Hnd.
  unfold Remote.hasPath in *.
  destruct (decide (TreeObj.path x = Some p)) as [Hx|Hx].
  - rewrite (bool_decide_eq_true_2 _ Hx) in *. rewrite Hx in Hnd.
    apply List.NoDup_cons_iff in Hnd as [Hnin _].
    assert (List.filter (fun o => bool_decide (TreeObj.path o = Some p)) l = []) as Hnil.
    { apply filter_none. intros y Hy. apply bool_decide_eq_false. intros Hyp.
      apply Hnin, list_elem_of_In, list_elem_of_omap. exists y.
      split; [by apply list_elem_of_In|done]. }
    rewrite Hnil in *. destruct Hin as [->|[]]. reflexivity.
  - rewrite (bool_decide_eq_false_2 _ Hx) in *. apply IH; [|done].
    destruct (TreeObj.path x); [|done]. by apply List.NoDup_cons_iff in Hnd as [_ ?].
Qed.

Lemma underFolder_nonempty (repoFolder p : string) :
  repoFolder <> EmptyString -> underFolder repoFolder p = true -> p <> EmptyString.
Proof.
  intros Hf Hu ->. unfold underFolder in Hu.
  apply orb_true_iff in Hu as [Hu|Hu].
  - apply bool_decide_eq_true in Hu. congruence.
  - by destruct repoFolder.
Qed.

Lemma prefix_append (a b : string) : String.prefix a (a +:+ b) = true.
Proof.
  induction a as [|c a IH]; [by destruct b|].
  change (String.prefix (String c a) (String c (a +:+ b)) = true).
  cbn [String.prefix]. destruct (Ascii.ascii_dec c c); [exact IH|done].
Qed.

Lemma underFolder_repoPathOf (repoFolder path : string) :
  repoFolder <> EmptyString -> underFolder repoFolder (repoPathOf repoFolder path) = true.
Proof.
  intros Hf. unfold underFolder, repoPathOf.
  rewrite (bool_decide_eq_false_2 _ Hf). apply orb_true_iff. right.
  assert (forall a b c : string, a +:+ b +:+ c = (a +:+ b) +:+ c) as Hassoc.
  { intros a b c. induction a as [|x a IH]; [done|].
    change (String x (a +:+ b +:+ c) = String x ((a +:+ b) +:+ c)). by rewrite IH. }
  change (repoFolder +:+ "/" +:+ path) with (repoFolder +:+ ("/" +:+ path)).
  rewrite Hassoc. apply prefix_append.
Qed.

Lemma selects_true (repoFolder p : string) (o : TreeObj.t) :
  selects repoFolder p o = true
  <-> TreeObj.path o = Some p /\ TreeObj.type o = Some "blob"
      /\ p <> EmptyString /\ underFolder repoFolder p = true.
Proof.
  unfold selects. rewrite !andb_true_iff, negb_true_iff, !bool_decide_eq_true,
    bool_decide_eq_false. tauto.
Qed.

Lemma find_repoPath_None (p : string) (files : list LocalFile.t) :
  List.find (fun e => bool_decide (LocalFile.repoPath e = p)) files = None
  <-> ~ In p (List.map LocalFile.repoPath files).
Proof.
  split.
  - intros Hfind (e & He & Hin)%List.in_map_iff.
    apply (List.find_none _ _ Hfind) in Hin.
    by apply bool_decide_eq_false in Hin.
  - intros Hnin. destruct (List.find _ files) as [e|] eqn:Hfind; [|done].
    apply List.find_some in Hfind as [Hin He]. apply bool_decide_eq_true in He.
    destruct Hnin. apply List.in_map_iff. eauto.
Qed.

End Mirror.

Section MirrorProof.

Variable repoFolder : string.
Variable localFiles : list LocalFile.t.
Variable baseTree : list TreeObj.t.

Hypothesis folder_not_root : repoFolder <> EmptyString.
Hypothesis base_unique : uniquePaths baseTree.
Hypothesis local_determined : pathDetermined repoFolder localFiles.

Local Abbreviation remoteFiles := (mapRemoteFiles repoFolder baseTree).
Local Abbreviation tree :=
  (upserts remoteFiles localFiles ++ deletions remoteFiles localFiles).
Local Abbreviation changedFiles := (List.filter (changed remoteFiles) localFiles).
Local Abbreviation deleted :=
  (List.filter (fun p => negb (bool_decide
      (p ∈ (list_to_set (List.map LocalFile.repoPath localFiles) : gset string))))
    (JsMap.keys remoteFiles)).

Lemma entriesAt_result (p : string) :
  entriesAt p (Remote.applyItems baseTree tree)
  = if bool_decide (p ∈ deleted) then []
    else match List.find (fun e => bool_decide (LocalFile.repoPath e = p)) changedFiles with
         | Some e => [blobEntry p (blob_hash (LocalFile.content e))]
         | None => entriesAt p baseTree
         end.
Proof.
  unfold upserts, deletions. rewrite applyItems_app, entriesAt_deletes.
  destruct (bool_decide (p ∈ deleted)); [reflexivity|].
  apply entriesAt_upserts. intros e1 e2 [H1 _]%List.filter_In [H2 _]%List.filter_In.
  by apply local_determined.
Qed.

Lemma in_deleted (p : string) :
  p ∈ deleted <-> In p (JsMap.keys remoteFiles)
                  /\ ~ In p (List.map LocalFile.repoPath localFiles).
Proof.
  rewrite list_elem_of_In, List.filter_In, negb_true_iff,
    bool_decide_eq_false, elem_of_list_to_set, list_elem_of_In. tauto.
Qed.

(** After the mutation list is applied, the blobs of the target folder
    are the gathered files, each once and with the hash of its content. *)
Lemma applied_tree_mirrors :
  mirrors repoFolder localFiles (Remote.applyItems baseTree tree).
Proof.
  split.
  - intros e He. rewrite entriesAt_result.
    rewrite bool_decide_eq_false_2.
    2:{ rewrite in_deleted. intros [_ Hn]. apply Hn, List.in_map_iff. eauto. }
    destruct (List.find _ changedFiles) as [e'|] eqn:Hfind.
    + apply List.find_some in Hfind as [[Hin _]%List.filter_In Hp].
      apply bool_decide_eq_true in Hp.
      destruct local_determined as [_ Hcons]. rewrite (Hcons e' e Hin He Hp).
      eexists. split; [reflexivity|]. split; reflexivity.
    + assert (changed remoteFiles e = false) as Hsame.
      { destruct (changed remoteFiles e) eqn:Hch; [|done].
        assert (In e changedFiles) as Hin by (by apply List.filter_In).
        apply (List.find_none _ _ Hfind) in Hin.
        by apply bool_decide_eq_false in Hin. }
      unfold changed in Hsame. apply negb_false_iff, bool_decide_eq_true in Hsame.
      symmetry in Hsame.
      apply get_mapRemoteFiles_Some in Hsame as (o & Hin & Hsel & Hsha).
      exists o. split; [by apply uniquePaths_entriesAt|].
      apply selects_true in Hsel as (_ & Hblob & _). split; [done|].
      apply or_empty_Some; [apply blob_hash_nonempty|done].
  - intros o p Hin Hpath Hblob Hunder.
    destruct (decide (p ∈ List.map LocalFile.repoPath localFiles)) as [Hyes|Hnot];
      [by apply list_elem_of_In|exfalso].
    rewrite list_elem_of_In in Hnot.
    assert (In o (entriesAt p (Remote.applyItems baseTree tree))) as Hat
      by (by apply in_entriesAt).
    rewrite entriesAt_result in Hat.
    destruct (decide (p ∈ deleted)) as [Hdel|Hdel].
    { by rewrite (bool_decide_eq_true_2 _ Hdel) in Hat. }
    rewrite (bool_decide_eq_false_2 _ Hdel) in Hat.
    assert (List.find (fun e => bool_decide (LocalFile.repoPath e = p)) changedFiles
            = None) as Hfind.
    { apply find_repoPath_None. intros (e & He & [Hin' _]%List.filter_In)%List.in_map_iff.
      apply Hnot, List.in_map_iff. eauto. }
    rewrite Hfind in Hat. apply in_entriesAt in Hat as [Hbase _].
    apply Hdel, in_deleted. split; [|done].
    apply in_keys_get. apply (get_mapRemoteFiles_None _ _ _ o Hbase).
    apply selects_true. repeat split; try done.
    by apply (underFolder_nonempty repoFolder).
Qed.

(** A listing that mirrors the gathered files needs no mutation. *)
Lemma mirrored_tree_needs_nothing (listing : list TreeObj.t) :
  mirrors repoFolder localFiles listing ->
  prepareTree (mapRemoteFiles repoFolder listing) localFiles = Ok [].
Proof.
  intros [Hlocal Hremote]. rewrite prepareTree_eq.
  assert (upserts (mapRemoteFiles repoFolder listing) localFiles = []) as ->.
  { unfold upserts. rewrite filter_none; [done|]. intros e He.
    destruct (Hlocal e He) as (o & Hat & Hblob & Hsha).
    unfold changed. apply negb_false_iff, bool_decide_eq_true.
    assert (In o (entriesAt (LocalFile.repoPath e) listing)) as Hin
      by (rewrite Hat; by left).
    apply in_entriesAt in Hin as [_ Hpath].
    destruct local_determined as [Hpaths _].
    rewrite (get_mapRemoteFiles_single _ _ _ o Hat), Hsha; [done|].
    apply selects_true. repeat split; try done.
    - apply (underFolder_nonempty repoFolder); [done|].
      rewrite (Hpaths e He). by apply underFolder_repoPathOf.
    - rewrite (Hpaths e He). by apply underFolder_repoPathOf. }
  assert (deletions (mapRemoteFiles repoFolder listing) localFiles = []) as ->.
  { unfold deletions. rewrite filter_none; [done|]. intros p Hp.
    apply negb_false_iff, bool_decide_eq_true.
    rewrite elem_of_list_to_set, list_elem_of_In.
    apply in_keys_get in Hp.
    destruct (JsMap.get p _) as [h|] eqn:Hget; [|done].
    apply get_mapRemoteFiles_Some in Hget as (o & Hin & Hsel & _).
    apply in_entriesAt in Hin as [Hin _].
    apply selects_true in Hsel as (Hpath & Hblob & _ & Hunder).
    by apply (Hremote o p). }
  reflexivity.
Qed.

End MirrorProof.



(** ** What a successful publish leaves on the remote *)

Section Gathered.

Lemma for_of_invariant {A S : Type} (P : S -> Prop) (xs : list A)
    (body : A -> S -> Result S) (s s' : S) :
  P s ->
  (forall x s s', P s -> body x s = Ok s' -> P s') ->
  for_of xs body s = Ok s' -> P s'.
Proof.
  intros Hs Hstep. revert s Hs. induction xs as [|x xs IH]; intros s Hs; cbn [for_of].
  - by intros [= <-].
  - destruct (body x s) as [s1|e] eqn:Hb; cbn [rbind]; [|done].
    apply IH. by apply (Hstep x s).
Qed.

Lemma pushFile_gathered (v : Vault) (repoFolder path : string)
    (acc acc' : list LocalFile.t) :
  Forall (gatheredFrom v repoFolder) acc ->
  pushFile v repoFolder path acc = Ok acc' ->
  Forall (gatheredFrom v repoFolder) acc'.
Proof.
  unfold pushFile. intros Hacc. destruct (read v path) as [c|] eqn:Hread; [|done].
  cbn [rbind]. intros [= <-]. apply Forall_app. split; [done|].
  constructor; [|constructor]. by split.
Qed.

Lemma gather_gathered (v : Vault) (repoFolder : string) (paths : list string)
    (localFiles : list LocalFile.t) :
  gatherLocalFiles v repoFolder paths = Ok localFiles ->
  Forall (gatheredFrom v repoFolder) localFiles.
Proof.
  unfold gatherLocalFiles.
  apply (for_of_invariant (Forall (gatheredFrom v repoFolder))); [constructor|].
  intros path acc acc' Hacc.
  destruct (getAbstractFileByPath v path) as [[p|p children]|].
  - by apply pushFile_gathered.
  - apply (for_of_invariant (Forall (gatheredFrom v repoFolder))); [done|].
    intros ? ? ?. apply pushFile_gathered.
  - by intros [= <-].
Qed.

Lemma repoPathOf_inj (repoFolder p q : string) :
  repoPathOf repoFolder p = repoPathOf repoFolder q -> p = q.
Proof.
  unfold repoPathOf. destruct (bool_decide (repoFolder = EmptyString)); [done|].
  intros H. by do 2 apply String.app_inj in H.
Qed.

Lemma gather_pathDetermined (v : Vault) (repoFolder : string) (paths : list string)
    (localFiles : list LocalFile.t) :
  gatherLocalFiles v repoFolder paths = Ok localFiles ->
  pathDetermined repoFolder localFiles.
Proof.
  intros Hg%gather_gathered. rewrite Forall_forall in Hg. split.
  - intros e He%list_elem_of_In. by apply Hg.
  - intros e1 e2 [Hp1 Hr1]%list_elem_of_In%Hg [Hp2 Hr2]%list_elem_of_In%Hg Heq.
    rewrite Hp1, Hp2 in Heq. apply repoPathOf_inj in Heq.
    rewrite Heq in Hr1. congruence.
Qed.

End Gathered.

Lemma rbind_pair_inv {A} (x : Result A) (r r' : Remote.t) (a : A) :
  rbind x (fun a => Ok (a, r)) = Ok (a, r') -> r' = r /\ x = Ok a.
Proof. destruct x; cbn; intros; by simplify_eq. Qed.

Lemma createTree_inv (r r' : Remote.t) (base_tree sha : nat) (items : list TreeItem.t) :
  Remote.createTree r base_tree items = Ok (sha, r') ->
  exists base, Remote.getTree r base_tree = Ok base
               /\ sha = length (Remote.trees r)
               /\ r' = Remote.mk (Remote.head r) (Remote.commits r)
                                 (Remote.trees r ++ [Remote.applyItems base items]).
Proof.
  unfold Remote.createTree. destruct (Remote.getTree r base_tree) as [base|]; [|done].
  cbn [rbind]. intros [= <- <-]. eauto.
Qed.

(** A publish that went through read the listing [baseTree] of the
    branch, computed the mutation list [tree] from it and the gathered
    files, and left the branch at a commit whose listing is [baseTree]
    with [tree] applied. *)
Lemma publish_success_inv (w : World) :
  validSettings (settings w) = true ->
  snd (publishBody w) = Ok tt ->
  exists owner repo localFiles treeSha baseTree tree treeSha',
    parseRepoUrl (repoUrl (settings w)) = Ok (owner, repo)
    /\ gatherLocalFiles (vault w) (normalizeFolder (repoFolder (settings w)))
                        (selectedPaths (settings w)) = Ok localFiles
    /\ (faults w EGetRef = None /\ faults w EGetCommit = None
        /\ faults w EGetTree = None)
    /\ Remote.getCommit (remote w) (Remote.head (remote w)) = Ok treeSha
    /\ Remote.getTree (remote w) treeSha = Ok baseTree
    /\ prepareTree (mapRemoteFiles (normalizeFolder (repoFolder (settings w))) baseTree)
                   localFiles = Ok tree
    /\ Remote.getCommit (remote (fst (publishToGitHub w)))
                        (Remote.head (remote (fst (publishToGitHub w)))) = Ok treeSha'
    /\ Remote.getTree (remote (fst (publishToGitHub w))) treeSha'
       = Ok (Remote.applyItems baseTree tree)
    /\ settings (fst (publishToGitHub w)) = set_lastSyncDate (now w) (settings w)
    /\ vault (fst (publishToGitHub w)) = vault w
    /\ faults (fst (publishToGitHub w)) = faults w.
Proof.
  destruct w as [s sd v r f n ns cs]. unfold validSettings.
  cbn [settings remote vault faults now]. intros Hvalid%negb_true_iff.
  run_publish; intros; simplify_eq.
  - repeat match goal with
           | H : rbind _ _ = Ok _ |- _ => apply rbind_pair_inv in H as [-> ?]
           end.
    match goal with
    | H : bool_decide (length ?t = 0%nat) = true |- _ =>
        apply bool_decide_eq_true, length_zero_iff_nil in H; subst t
    end.
    do 7 eexists. repeat split; try eassumption; reflexivity.
  - repeat match goal with
           | H : rbind _ _ = Ok _ |- _ => apply rbind_pair_inv in H as [-> ?]
           end.
    match goal with
    | H : Remote.updateRef _ _ = Ok _ |- _ => apply updateRef_inv in H as ->
    end.
    match goal with
    | H : Remote.createTree _ _ _ = Ok _ |- _ =>
        apply createTree_inv in H as (base & Hbase & -> & ->)
    end.
    match goal with
    | H : Remote.getTree _ _ = Ok ?l |- _ =>
        assert (base = l) as -> by congruence
    end.
    do 7 eexists. repeat split; try eassumption; try reflexivity.
    + unfold Remote.getCommit. cbn [Remote.commits Remote.head].
      rewrite list_lookup_middle by reflexivity. reflexivity.
    + unfold Remote.getTree. cbn [Remote.trees Remote.tree].
      rewrite list_lookup_middle by reflexivity. reflexivity.
Qed.

Lemma headTree_Some (r : Remote.t) (listing : list TreeObj.t) :
  Remote.headTree r = Some listing
  <-> exists treeSha, Remote.getCommit r (Remote.head r) = Ok treeSha
                      /\ Remote.getTree r treeSha = Ok listing.
Proof.
  unfold Remote.headTree, Remote.getCommit, Remote.getTree, Remote.notFound.
  destruct (Remote.commits r !! Remote.head r) as [c|]; split.
  - intros H. exists (Remote.tree c). by rewrite H.
  - intros (t & [= <-] & H). by destruct (Remote.trees r !! Remote.tree c) as [l|];
      simplify_eq.
  - done.
  - by intros (t & ? & _).
Qed.

Lemma in_blobPaths (p : string) (listing : list TreeObj.t) :
  In p (blobPaths listing)
  <-> exists o, In o listing /\ TreeObj.path o = Some p
                /\ TreeObj.type o = Some "blob".
Proof.
  unfold blobPaths. rewrite List.in_flat_map. split.
  - intros (o & Hin & Hp). exists o. split; [done|].
    destruct (TreeObj.path o) as [q|]; [|done].
    destruct (decide (TreeObj.type o = Some "blob")) as [Hb|Hb].
    + rewrite (bool_decide_eq_true_2 _ Hb) in Hp. destruct Hp as [->|[]]. done.
    + by rewrite (bool_decide_eq_false_2 _ Hb) in Hp.
  - intros (o & Hin & Hp & Hb). exists o. split; [done|].
    rewrite Hp, (bool_decide_eq_true_2 _ Hb). by left.
Qed.

(** The mirror invariant in the words of the specification. *)
Lemma mirrors_spec (repoFolder : string) (localFiles : list LocalFile.t)
    (listing : list TreeObj.t) :
  repoFolder <> EmptyString ->
  pathDetermined repoFolder localFiles ->
  mirrors repoFolder localFiles listing ->
  (forall p, In p (blobPaths listing) /\ underFolder repoFolder p = true
             <-> In p (List.map LocalFile.repoPath localFiles))
  /\ (forall e o, In e localFiles -> In o listing ->
        isBlobAt (LocalFile.repoPath e) o = true ->
        exists h, gitBlobSha1 (LocalFile.content e) = Ok h /\ TreeObj.sha o = Some h).
Proof.
  intros Hf [Hpaths _] [Hlocal Hremote]. split.
  - intros p. split.
    + intros [(o & Hin & Hp & Hb)%in_blobPaths Hunder]. by apply (Hremote o p).
    + intros (e & <- & He)%List.in_map_iff.
      destruct (Hlocal e He) as (o & Hat & Hb & _).
      assert (In o (entriesAt (LocalFile.repoPath e) listing)) as Hin
        by (rewrite Hat; by left).
      apply in_entriesAt in Hin as [Hin Hp]. split.
      * apply in_blobPaths. eauto.
      * rewrite (Hpaths e He). by apply underFolder_repoPathOf.
  - intros e o He Hin [Hp Hb]%andb_true_iff. apply bool_decide_eq_true in Hp.
    destruct (Hlocal e He) as (o' & Hat & _ & Hsha).
    assert (In o (entriesAt (LocalFile.repoPath e) listing)) as Hin'
      by (by apply in_entriesAt).
    rewrite Hat in Hin'. destruct Hin' as [->|[]].
    exists (blob_hash (LocalFile.content e)). split; [apply gitBlobSha1_blob_hash|done].
Qed.

Lemma publish_success_mirrors (w : World) (baseTree : list TreeObj.t) :
  validSettings (settings w) = true ->
  snd (publishBody w) = Ok tt ->
  normalizeFolder (repoFolder (settings w)) <> EmptyString ->
  Remote.headTree (remote w) = Some baseTree ->
  uniquePaths baseTree ->
  exists localFiles listing,
    gatherLocalFiles (vault w) (normalizeFolder (repoFolder (settings w)))
                     (selectedPaths (settings w)) = Ok localFiles
    /\ Remote.headTree (remote (fst (publishToGitHub w))) = Some listing
    /\ pathDetermined (normalizeFolder (repoFolder (settings w))) localFiles
    /\ mirrors (normalizeFolder (repoFolder (settings w))) localFiles listing.
Proof.
  intros Hvalid Hok Hf Hhead Hunique.
  destruct (publish_success_inv w Hvalid Hok)
    as (owner & repo & lfs & t & base & tree & t' & _ & Hg & _ & Hc & Ht & Hprep
        & Hc' & Ht' & _).
  assert (base = baseTree) as ->.
  { assert (Remote.headTree (remote w) = Some base) as Hb
      by (apply headTree_Some; eauto). congruence. }
  rewrite prepareTree_eq in Hprep. injection Hprep as <-.
  exists lfs, (Remote.applyItems baseTree
    (upserts (mapRemoteFiles (normalizeFolder (repoFolder (settings w))) baseTree) lfs
     ++ deletions (mapRemoteFiles (normalizeFolder (repoFolder (settings w))) baseTree) lfs)).
  pose proof (gather_pathDetermined _ _ _ _ Hg) as Hdet.
  repeat split; try apply Hdet; try done.
  - apply headTree_Some. eauto.
  - by apply applied_tree_mirrors.
  - by apply applied_tree_mirrors.
Qed.

(** When the target folder is not the root, a publish that follows a
    successful one, with the vault and the remote left as they were,
    sends the three reads only and records the new date. *)
Lemma second_publish_is_noop (w : World) (baseTree : list TreeObj.t) (later : string) :
  validSettings (settings w) = true ->
  snd (publishBody w) = Ok tt ->
  normalizeFolder (repoFolder (settings w)) <> EmptyString ->
  Remote.headTree (remote w) = Some baseTree ->
  uniquePaths baseTree ->
  snd (publishToGitHub (withNow later (fst (publishToGitHub w)))) = Ok tt
  /\ List.map endpointOf
       (newCalls (withNow later (fst (publishToGitHub w)))
                 (fst (publishToGitHub (withNow later (fst (publishToGitHub w))))))
     = [EGetRef; EGetCommit; EGetTree]
  /\ List.filter isWrite
       (newCalls (withNow later (fst (publishToGitHub w)))
                 (fst (publishToGitHub (withNow later (fst (publishToGitHub w))))))
     = []
  /\ remote (fst (publishToGitHub (withNow later (fst (publishToGitHub w)))))
     = remote (fst (publishToGitHub w))
  /\ lastSyncDate
       (settings (fst (publishToGitHub (withNow later (fst (publishToGitHub w))))))
     = Some later.
Proof.
  intros Hvalid Hok Hf Hhead Hunique.
  destruct (publish_success_mirrors w baseTree Hvalid Hok Hf Hhead Hunique)
    as (lfs & listing & Hg & Hhead' & Hdet & Hmirror).
  destruct (publish_success_inv w Hvalid Hok)
    as (owner & repo & lfs' & t & base & tree & t' & Hparse & Hg' & (Hf1 & Hf2 & Hf3)
        & _ & _ & _ & Hc' & Ht' & Hs & Hv & Hfaults).
  assert (lfs' = lfs) as -> by congruence.
  assert (Remote.applyItems base tree = listing) as Hl.
  { assert (Remote.headTree (remote (fst (publishToGitHub w)))
            = Some (Remote.applyItems base tree)) as Hb
      by (apply headTree_Some; eauto). congruence. }
  rewrite Hl in Ht'.
  set (w1 := fst (publishToGitHub w)) in *.
  pose proof (mirrored_tree_needs_nothing _ lfs Hf Hdet listing Hmirror) as Hnothing.
  destruct (empty_tree_short_circuit (withNow later w1) owner repo lfs t' listing)
    as (Hres & Hcalls & Hwrites & Hremote & Hsettings & _); cbn [withNow settings
      vault faults remote now]; rewrite ?Hs, ?Hv, ?Hfaults; try done.
  repeat split; try done.
  - by rewrite Hcalls.
  - by rewrite Hsettings.
Qed.

(** The two lemmas at work on the folder docs. *)
Example docs_publish_mirrors :
  exists localFiles listing,
    gatherLocalFiles Scenario.vault "docs" ["a.md"; "notes"] = Ok localFiles
    /\ Remote.headTree (remote (fst (publishToGitHub Scenario.docsWorld))) = Some listing
    /\ mirrors "docs" localFiles listing.
Proof.
  destruct (publish_success_mirrors Scenario.docsWorld
              [Scenario.blob "README.md" "3b18e512dba79e4c8300dd08aeb37f8e728b8dad"])
    as (localFiles & listing & Hg & Hh & _ & Hm).
  - reflexivity.
  - vm_compute. reflexivity.
  - vm_compute. discriminate.
  - reflexivity.
  - unfold uniquePaths. cbn. constructor; [tauto|constructor].
  - exists localFiles, listing. auto.
Qed.

Example docs_second_publish_is_noop :
  List.filter isWrite
    (newCalls (withNow "2025-01-01T01:00:00.000Z" (fst (publishToGitHub Scenario.docsWorld)))
       (fst (publishToGitHub
               (withNow "2025-01-01T01:00:00.000Z"
                        (fst (publishToGitHub Scenario.docsWorld)))))) = []
  /\ lastSyncDate
       (settings (fst (publishToGitHub
                         (withNow "2025-01-01T01:00:00.000Z"
                                  (fst (publishToGitHub Scenario.docsWorld))))))
     = Some "2025-01-01T01:00:00.000Z".
Proof.
  destruct (second_publish_is_noop Scenario.docsWorld
              [Scenario.blob "README.md" "3b18e512dba79e4c8300dd08aeb37f8e728b8dad"]
              "2025-01-01T01:00:00.000Z") as (_ & _ & Hw & _ & Hd).
  - reflexivity.
  - vm_compute. reflexivity.
  - vm_compute. discriminate.
  - reflexivity.
  - unfold uniquePaths. cbn. constructor; [tauto|constructor].
  - auto.
Qed.

(** ** The empty target folder *)

(** With the empty folder the test of lines 214-219 asks for a path
    that starts with "/": a listing whose paths are relative, as the
    paths of a git tree are, selects nothing. *)
Lemma mapRemoteFiles_root (listing : list TreeObj.t) :
  (forall o p, In o listing -> TreeObj.path o = Some p -> String.prefix "/" p = false) ->
  mapRemoteFiles "" listing = [].
Proof.
  induction listing as [|o l IH] using rev_ind; [reflexivity|].
  intros Hrel. rewrite mapRemoteFiles_snoc, IH.
  2:{ intros o' p Hin. apply Hrel, List.in_app_iff. by left. }
  destruct (TreeObj.path o) as [p|] eqn:Hp; [|reflexivity].
  assert (selects "" p o = false) as ->; [|reflexivity].
  unfold selects, underFolder. change ("" +:+ "/") with "/".
  rewrite (Hrel o p); [|apply List.in_app_iff; right; by left|done].
  rewrite orb_false_r. destruct (bool_decide (p = "")); cbn;
    by rewrite ?andb_false_r.
Qed.

(** C6, at the failing input. The target folder is empty and the branch
    holds the blob README.md: the map of remote files is empty although
    README.md is a blob of the listing, so the publish of a.md sends no
    deletion and README.md stays on the branch. *)
Theorem empty_folder_selects_nothing :
  normalizeFolder "" = ""
  /\ blobPaths [Scenario.blob "README.md" "3b18e512dba79e4c8300dd08aeb37f8e728b8dad"]
     = ["README.md"]
  /\ mapRemoteFiles (normalizeFolder "")
       [Scenario.blob "README.md" "3b18e512dba79e4c8300dd08aeb37f8e728b8dad"] = []
  /\ List.filter (fun c => bool_decide (endpointOf c = ECreateTree))
       (calls (fst (publishToGitHub Scenario.rootWorld)))
     = [CreateTree "alice" "notes" 0
          [TreeItem.mk "a.md" "100644" "blob" (Some (Js.lit "hello")) None]].
Proof. repeat split; vm_compute; reflexivity. Qed.

(** C1, at the failing input. The target folder is empty, a.md is the
    selection and the branch holds README.md. The publish succeeds (no
    notice, date recorded), yet the blobs of the branch are README.md and
    a.md while the only gathered repoPath is a.md. *)
Theorem mirror_broken_for_empty_folder :
  snd (publishToGitHub Scenario.rootWorld) = Ok tt
  /\ notices (fst (publishToGitHub Scenario.rootWorld)) = []
  /\ lastSyncDate (settings (fst (publishToGitHub Scenario.rootWorld)))
     = Some (now Scenario.rootWorld)
  /\ gatherLocalFiles Scenario.vault (normalizeFolder "") ["a.md"]
     = Ok [LocalFile.mk "a.md" "a.md" (Js.lit "hello")]
  /\ option_map blobPaths
       (Remote.headTree (remote (fst (publishToGitHub Scenario.rootWorld))))
     = Some ["README.md"; "a.md"].
Proof. repeat split; vm_compute; reflexivity. Qed.

(** C5, at the failing input. With the empty target folder, a second
    publish right after a successful first one, with the vault and the
    remote untouched in between, sends create-tree, create-commit and
    update-ref again. *)
Theorem second_publish_writes_for_empty_folder :
  snd (publishToGitHub Scenario.rootWorld) = Ok tt
  /\ notices Scenario.rootWorldPublished = []
  /\ List.map endpointOf
       (newCalls Scenario.rootWorldPublished
                 (fst (publishToGitHub Scenario.rootWorldPublished)))
     = [EGetRef; EGetCommit; EGetTree; ECreateTree; ECreateCommit; EUpdateRef]
  /\ List.filter isWrite
       (newCalls Scenario.rootWorldPublished
                 (fst (publishToGitHub Scenario.rootWorldPublished)))
     = [CreateTree "alice" "notes" 1
          [TreeItem.mk "a.md" "100644" "blob" (Some (Js.lit "hello")) None];
        CreateCommit "alice" "notes" commitMessage 2 [1%nat];
        UpdateRef "alice" "notes" "heads/main" 2].
Proof. repeat split; vm_compute; reflexivity. Qed.

(** * Further properties of the code *)

(** ** parseRepoUrl *)















Lemma drop_dot_git_nonempty (s : string) :
  s <> EmptyString -> drop_dot_git s <> EmptyString.
Proof. destruct s as [|c s]; [done|]. cbn. by destruct (bool_decide _). Qed.

Lemma owner_repo_nonempty (r owner repo : string) :
  owner_repo r = Some (owner, repo) -> owner <> EmptyString /\ repo <> EmptyString.
Proof.
  unfold owner_repo. destruct (has_line_terminator r); [done|].
  destruct r as [|c r]; [done|].
  destruct (split_slash r) as [[a rest]|]; [|done].
  destruct rest as [|c' rest]; [done|]. intros [= <- <-].
  split; [done|]. by destruct (bool_decide (rest = ".git")).
Qed.

(** X2. [parseRepoUrl] never returns an empty owner or an empty repository
    name; an address it cannot split this way is refused with the error
    "URL de repo GitHub invalide". *)
Theorem parseRepoUrl_never_empty (repoUrl : string) :
  (exists owner repo, parseRepoUrl repoUrl = Ok (owner, repo)
                      /\ owner <> EmptyString /\ repo <> EmptyString)
  \/ parseRepoUrl repoUrl = Throw (mkError "URL de repo GitHub invalide").
Proof.
  unfold parseRepoUrl. destruct (url_match repoUrl) as [[owner repo]|] eqn:E; [|by right].
  left. exists owner, repo. split; [done|].
  induction repoUrl as [|c s IH]; cbn [url_match] in E.
  - discriminate E.
  - destruct (match_here (String c s)) as [m|] eqn:Hm.
    + injection E as ->. unfold match_here in Hm.
      destruct (strip_prefix_ci _ _) as [[|sep r]|]; try done.
      destruct (_ || _); [|done]. by apply owner_repo_nonempty in Hm.
    + by apply IH.
Qed.

(** ** Before the first request *)

(** X3. With a token, an address or a branch missing, a publish shows the
    notice of invalid settings and does nothing else: no file is read, no
    request is sent, nothing is saved. *)
Theorem incomplete_settings_only_notice (w : World) :
  validSettings (settings w) = false ->
  publishToGitHub w = (addNotice "GitHub Publisher: invalid settings" w, Ok tt).
Proof.
  destruct w as [s sd v r f n ns cs]. unfold validSettings. cbn [settings].
  intros Hvalid%negb_false_iff. unfold_publish. by rewrite Hvalid.
Qed.

Lemma incomplete_settings_only_notice_witness :
  publishToGitHub (withSettings (mkSettings "" "https://github.com/alice/notes" "docs"
                                            "main" ["a.md"] 60 None) Scenario.docsWorld)
  = (addNotice "GitHub Publisher: invalid settings"
       (withSettings (mkSettings "" "https://github.com/alice/notes" "docs"
                                 "main" ["a.md"] 60 None) Scenario.docsWorld), Ok tt).
Proof. apply incomplete_settings_only_notice. reflexivity. Defined.

(** X4. An address that [parseRepoUrl] refuses stops the publish before
    any file is read and any request is sent; the notice carries the
    message of the error. *)
Theorem malformed_url_sends_nothing (w : World) (e : Error) :
  validSettings (settings w) = true ->
  parseRepoUrl (repoUrl (settings w)) = Throw e ->
  publishToGitHub w
  = (addNotice "GitHub Publisher: error during publish : URL de repo GitHub invalide" w,
     Ok tt).
Proof.
  destruct w as [s sd v r f n ns cs]. unfold validSettings. cbn [settings].
  intros Hvalid%negb_true_iff Hparse. unfold_publish. rewrite Hvalid, Hparse.
  unfold parseRepoUrl in Hparse.
  destruct (url_match (repoUrl s)) as [[owner repo]|]; [discriminate|].
  by injection Hparse as <-.
Qed.

Lemma malformed_url_sends_nothing_witness :
  publishToGitHub (withSettings (mkSettings "ghp_token" "https://example.org/alice/notes"
                                            "docs" "main" ["a.md"] 60 None)
                                Scenario.docsWorld)
  = (addNotice "GitHub Publisher: error during publish : URL de repo GitHub invalide"
       (withSettings (mkSettings "ghp_token" "https://example.org/alice/notes"
                                 "docs" "main" ["a.md"] 60 None) Scenario.docsWorld),
     Ok tt).
Proof.
  apply (malformed_url_sends_nothing _ (mkError "URL de repo GitHub invalide"));
    reflexivity.
Defined.

(** X5. A read of the vault that rejects stops the publish before the
    first request: the remote and the settings stay as they were and the
    notice carries the message of the error. *)
Theorem failed_read_sends_nothing (w : World) (owner repo : string) (e : Error) :
  validSettings (settings w) = true ->
  parseRepoUrl (repoUrl (settings w)) = Ok (owner, repo) ->
  gatherLocalFiles (vault w) (normalizeFolder (repoFolder (settings w)))
                   (selectedPaths (settings w)) = Throw e ->
  publishToGitHub w
  = (addNotice ("GitHub Publisher: error during publish : " +:+ message e) w, Ok tt).
Proof.
  destruct w as [s sd v r f n ns cs]. unfold validSettings. cbn [settings vault].
  intros Hvalid%negb_true_iff Hparse Hgather. unfold_publish.
  rewrite Hvalid, Hparse. world_simpl. by rewrite Hgather.
Qed.

Lemma failed_read_sends_nothing_witness :
  publishToGitHub (mkWorld (settings Scenario.docsWorld) None lockedVault
                           Scenario.readmeRepo Scenario.noFault
                           "2025-01-01T00:00:00.000Z" [] [])
  = (mkWorld (settings Scenario.docsWorld) None lockedVault
             Scenario.readmeRepo Scenario.noFault "2025-01-01T00:00:00.000Z"
             ["GitHub Publisher: error during publish : EACCES: permission denied"] [],
     Ok tt).
Proof.
  apply (failed_read_sends_nothing
           (mkWorld (settings Scenario.docsWorld) None lockedVault
                    Scenario.readmeRepo Scenario.noFault
                    "2025-01-01T00:00:00.000Z" [] [])
           "alice" "notes" (mkError "EACCES: permission denied")); reflexivity.
Defined.

(** ** Gathering *)

Lemma gather_selectedFiles (v : Vault) (repoFolder : string) (paths : list string) :
  gatherLocalFiles v repoFolder paths
  = for_of (selectedFiles v paths) (pushFile v repoFolder) [].
Proof.
  induction paths as [|path paths IH] using rev_ind; [reflexivity|].
  unfold selectedFiles in *. rewrite gather_app, List.flat_map_app, for_of_app, IH.
  destruct (for_of _ _ []) as [l|e]; cbn [rbind]; [|reflexivity].
  cbn [List.flat_map]. rewrite List.app_nil_r.
  unfold gatherLocalFiles. cbn [for_of].
  destruct (getAbstractFileByPath v path) as [[p|p children]|]; cbn [rbind for_of].
  - rewrite (pushFile_shift v repoFolder p l).
    by destruct (pushFile v repoFolder p []).
  - rewrite (for_of_shift _ (pushFile v repoFolder) (pushFile_shift v repoFolder) l).
    destruct (for_of _ _ []); cbn [rbind]; [|reflexivity]. by rewrite ?List.app_nil_r.
  - by rewrite ?List.app_nil_r.
Qed.

Lemma for_of_pushFile_Ok (v : Vault) (repoFolder : string) (ps : list string)
    (acc lfs : list LocalFile.t) :
  for_of ps (pushFile v repoFolder) acc = Ok lfs
  <-> exists new, lfs = acc ++ new /\ Forall2 (entryOf v repoFolder) ps new.
Proof.
  revert acc. induction ps as [|p ps IH]; intros acc; cbn [for_of].
  - split.
    + intros [= <-]. exists []. split; [by rewrite app_nil_r|constructor].
    + intros (new & -> & Hnew). apply Forall2_nil_inv_l in Hnew as ->.
      by rewrite app_nil_r.
  - unfold pushFile at 1. destruct (read v p) as [c|e] eqn:Hread; cbn [rbind].
    + rewrite IH. split.
      * intros (new & -> & Hnew). exists (LocalFile.mk p (repoPathOf repoFolder p) c :: new).
        split; [by rewrite <- app_assoc|]. constructor; [|done]. by repeat split.
      * intros (new & -> & Hnew).
        apply Forall2_cons_inv_l in Hnew as (e & new' & (Hp & Hr & Hc) & Hnew' & ->).
        exists new'. split; [|done]. rewrite <- app_assoc. cbn [app]. do 2 f_equal.
        destruct e as [vp rp ct]. cbn in *. congruence.
    + split; [done|]. intros (new & -> & Hnew).
      apply Forall2_cons_inv_l in Hnew as (e' & new' & (Hp & Hr & Hc) & _).
      congruence.
Qed.

(** X6. The gather loop returns a list exactly when every file of the
    selection can be read, and the list then holds one entry for each of
    these files, in the order of the selection and with repetitions, with
    the vault path, the path under the target folder and the content
    read. *)
Theorem gather_lists_selected_files (v : Vault) (repoFolder : string)
    (paths : list string) (localFiles : list LocalFile.t) :
  gatherLocalFiles v repoFolder paths = Ok localFiles
  <-> Forall2 (entryOf v repoFolder) (selectedFiles v paths) localFiles.
Proof.
  rewrite gather_selectedFiles, for_of_pushFile_Ok. split.
  - by intros (new & -> & Hnew).
  - intros H. by exists localFiles.
Qed.

(** X7. The gather loop rejects with the error of the first read that
    rejects; the files after it are not read. *)
Theorem gather_stops_at_failed_read (v : Vault) (repoFolder : string)
    (paths before after : list string) (p : string) (e : Error) :
  selectedFiles v paths = before ++ p :: after ->
  (forall q, In q before -> exists c, read v q = Ok c) ->
  read v p = Throw e ->
  gatherLocalFiles v repoFolder paths = Throw e.
Proof.
  intros Hsel Hbefore Hread. rewrite gather_selectedFiles, Hsel, for_of_app.
  assert (forall acc, exists l, for_of before (pushFile v repoFolder) acc = Ok l) as Hok.
  { clear Hsel. induction before as [|q before IH]; intros acc; cbn [for_of]; [eauto|].
    destruct (Hbefore q) as [c Hc]; [by left|].
    unfold pushFile at 1. rewrite Hc. cbn [rbind]. apply IH.
    intros q' Hq'. apply Hbefore. by right. }
  destruct (Hok []) as [l ->].
  cbn [rbind for_of]. unfold pushFile at 1. by rewrite Hread.
Qed.

Lemma gather_stops_at_failed_read_witness :
  gatherLocalFiles lockedVault "docs" ["a.md"; "notes"]
  = Throw (mkError "EACCES: permission denied").
Proof.
  apply (gather_stops_at_failed_read lockedVault "docs" ["a.md"; "notes"]
           ["a.md"] [] "notes/b.md").
  - reflexivity.
  - intros q [<-|[]]. exists (Js.lit "hello"). reflexivity.
  - reflexivity.
Defined.

(** ** The requests of a publish *)

(** X8. Whatever the settings, the vault, the remote and the failures, a
    publish appends its requests to the log, and they are a beginning of
    get-ref, get-commit, get-tree, create-tree, create-commit, update-ref:
    each is sent at most once, in this order, and a write only after the
    three reads. *)
Theorem requests_follow_the_protocol (w : World) :
  calls (fst (publishToGitHub w)) = calls w ++ newCalls w (fst (publishToGitHub w))
  /\ List.map endpointOf (newCalls w (fst (publishToGitHub w)))
     `prefix_of` [EGetRef; EGetCommit; EGetTree; ECreateTree; ECreateCommit; EUpdateRef].
Proof.
  destruct w as [s sd v r f n ns cs].
  run_publish; new_lists; (split; [by rewrite ?List.app_nil_r|]);
    eexists; reflexivity.
Qed.






(** ** The settings in memory and on disk *)


(** ** The mirror *)

(** X12. When the target folder is not the root and the paths of the
    listing of the branch are distinct, a publish that went through
    leaves the branch at a listing whose blobs under the target folder
    are exactly the paths of the gathered files, each with the hash
    [gitBlobSha1] gives its content. *)
Theorem successful_publish_mirrors_folder (w : World) (baseTree : list TreeObj.t) :
  validSettings (settings w) = true ->
  snd (publishBody w) = Ok tt ->
  normalizeFolder (repoFolder (settings w)) <> EmptyString ->
  Remote.headTree (remote w) = Some baseTree ->
  uniquePaths baseTree ->
  exists localFiles listing,
    gatherLocalFiles (vault w) (normalizeFolder (repoFolder (settings w)))
                     (selectedPaths (settings w)) = Ok localFiles
    /\ Remote.headTree (remote (fst (publishToGitHub w))) = Some listing
    /\ (forall p, In p (blobPaths listing)
                  /\ underFolder (normalizeFolder (repoFolder (settings w))) p = true
                  <-> In p (List.map LocalFile.repoPath localFiles))
    /\ (forall e o, In e localFiles -> In o listing ->
          isBlobAt (LocalFile.repoPath e) o = true ->
          exists h, gitBlobSha1 (LocalFile.content e) = Ok h /\ TreeObj.sha o = Some h).
Proof.
  intros Hvalid Hok Hf Hhead Hunique.
  destruct (publish_success_mirrors w baseTree Hvalid Hok Hf Hhead Hunique)
    as (localFiles & listing & Hg & Hhead' & Hdet & Hmirror).
  exists localFiles, listing. do 2 (split; [done|]).
  by apply mirrors_spec.
Qed.

Lemma successful_publish_mirrors_folder_witness :
  exists localFiles listing,
    gatherLocalFiles Scenario.vault "docs" ["a.md"; "notes"] = Ok localFiles
    /\ Remote.headTree (remote (fst (publishToGitHub Scenario.docsWorld))) = Some listing
    /\ (forall p, In p (blobPaths listing) /\ underFolder "docs" p = true
                  <-> In p (List.map LocalFile.repoPath localFiles))
    /\ (forall e o, In e localFiles -> In o listing ->
          isBlobAt (LocalFile.repoPath e) o = true ->
          exists h, gitBlobSha1 (LocalFile.content e) = Ok h /\ TreeObj.sha o = Some h).
Proof.
  apply (successful_publish_mirrors_folder Scenario.docsWorld
           [Scenario.blob "README.md" "3b18e512dba79e4c8300dd08aeb37f8e728b8dad"]).
  - reflexivity.
  - vm_compute. reflexivity.
  - vm_compute. discriminate.
  - reflexivity.
  - unfold uniquePaths. cbn. constructor; [intros []|constructor].
Defined.

(** ** A remote that is up to date *)



(** ** The root as target folder *)

(** X14. With the empty target folder and a listing whose paths are
    relative, as the paths of a git tree are, the mutation list is one
    upsert for every gathered file, in order, whatever the branch holds,
    and no deletion. *)
Theorem root_folder_uploads_everything (listing : list TreeObj.t)
    (localFiles : list LocalFile.t) :
  (forall o p, In o listing -> TreeObj.path o = Some p -> String.prefix "/" p = false) ->
  prepareTree (mapRemoteFiles "" listing) localFiles
  = Ok (List.map upsertItem localFiles).
Proof.
  intros Hrel. rewrite prepareTree_eq, (mapRemoteFiles_root listing Hrel).
  unfold upserts, deletions. cbn [JsMap.keys List.map List.filter].
  rewrite List.app_nil_r. do 2 f_equal.
  induction localFiles as [|file l IH]; [reflexivity|].
  cbn [List.filter]. unfold changed at 1. cbn [JsMap.get].
  rewrite bool_decide_eq_false_2 by discriminate. cbn [negb]. by rewrite IH.
Qed.

Lemma root_folder_uploads_everything_witness :
  prepareTree (mapRemoteFiles "" [Scenario.blob "a.md" Scenario.helloSha;
                                  Scenario.blob "old.md" Scenario.helloSha])
              [LocalFile.mk "a.md" "a.md" (Js.lit "hello")]
  = Ok [upsertItem (LocalFile.mk "a.md" "a.md" (Js.lit "hello"))].
Proof.
  apply (root_folder_uploads_everything
           [Scenario.blob "a.md" Scenario.helloSha; Scenario.blob "old.md" Scenario.helloSha]
           [LocalFile.mk "a.md" "a.md" (Js.lit "hello")]).
  intros o p [<-|[<-|[]]] [= <-]; reflexivity.
Defined.



(** ** Minimality *)


(** ** The hash as a string *)

Lemma concat_cons (x : string) (xs : list string) :
  String.concat "" (x :: xs) = x +:+ String.concat "" xs.
Proof.
  destruct xs as [|y ys]; cbn [String.concat]; [|reflexivity].
  induction x as [|c x IH]; [reflexivity|].
  change (String c x +:+ "") with (String c (x +:+ "")). by rewrite <- IH.
Qed.

Lemma lowerHex_byte_table :
  List.forallb (fun b =>
      match lowerHexDigit (b / 16) +:+ lowerHexDigit (b mod 16) with
      | String c1 (String c2 EmptyString) => isLowerHexChar c1 && isLowerHexChar c2
      | _ => false
      end) (List.map Z.of_nat (List.seq 0 256)) = true.
Proof. vm_compute. reflexivity. Qed.

Lemma lowerHex_shape (bytes : list Z) :
  Forall (fun b => 0 <= b < 256) bytes ->
  String.length (lowerHex bytes) = (2 * length bytes)%nat
  /\ List.forallb isLowerHexChar (list_ascii_of_string (lowerHex bytes)) = true.
Proof.
  unfold lowerHex. induction 1 as [|b l Hb _ [IHlen IHhex]]; [by split|].
  cbn [List.map]. rewrite concat_cons.
  pose proof lowerHex_byte_table as Htable. rewrite List.forallb_forall in Htable.
  specialize (Htable b). cbv beta in Htable.
  destruct (lowerHexDigit (b / 16) +:+ lowerHexDigit (b mod 16))
    as [|c1 [|c2 [|c3 rest]]]; try (discriminate Htable; apply List.in_map_iff;
      exists (Z.to_nat b); split; [lia|apply List.in_seq; lia]).
  assert (isLowerHexChar c1 && isLowerHexChar c2 = true) as [H1 H2]%andb_true_iff.
  { apply Htable, List.in_map_iff. exists (Z.to_nat b).
    split; [lia|apply List.in_seq; lia]. }
  change (String c1 (String c2 "") +:+ ?s) with (String c1 (String c2 s)).
  cbn [String.length list_ascii_of_string List.forallb length].
  rewrite IHlen, H1, H2, IHhex. split; [lia|reflexivity].
Qed.

(** X17. Whatever the content, [gitBlobSha1] resolves, never rejects, and
    its result is a string of 40 characters, each one of 0-9 and a-f. *)
Theorem gitBlobSha1_forty_hex_digits (content : Js.jsstring) :
  exists h, gitBlobSha1 content = Ok h
            /\ String.length h = 40%nat
            /\ List.forallb isLowerHexChar (list_ascii_of_string h) = true.
Proof.
  exists (blob_hash content). split; [apply gitBlobSha1_blob_hash|].
  unfold blob_hash. rewrite hex_lowerHex by apply digest_range.
  destruct (lowerHex_shape _ (digest_range
    (git_header (length (Js.encode content)) ++ Js.encode content))) as [Hlen Hhex].
  rewrite digest_length in Hlen. by split.
Qed.

(** ** The files of a folder *)

Lemma TAbstractFile_tree_ind (P : TAbstractFile -> Prop) :
  (forall p, P (TFile p)) ->
  (forall p children, Forall P children -> P (TFolder p children)) ->
  forall file, P file.
Proof.
  intros Hfile Hfolder. fix IH 1. intros [p|p children]; [apply Hfile|].
  apply Hfolder. induction children as [|c cs IHcs]; constructor; [apply IH|exact IHcs].
Qed.

(** X18. [getAllFilesInFolder] returns the files that are children of the
    folder or lie below one of its subfolders, at any depth, and nothing
    else: no folder, and nothing from outside. *)
Theorem getAllFilesInFolder_files_below (children : list TAbstractFile) (p : string) :
  In p (getAllFilesInFolder children) <-> fileBelow p children.
Proof.
  split.
  - assert (forall file, forall q, In q (filesOf file) ->
              file = TFile q \/ exists path sub, file = TFolder path sub /\ fileBelow q sub)
      as Hfile.
    { induction file as [q'|path sub IH] using TAbstractFile_tree_ind;
        intros q; cbn [filesOf].
      - intros [->|[]]. by left.
      - intros (c & Hc & Hq)%List.in_flat_map. right. exists path, sub. split; [done|].
        rewrite Forall_forall in IH.
        destruct (IH c (proj2 (list_elem_of_In _ _) Hc) q Hq) as [->|(path' & sub' & -> & Hb)].
        + by apply below_child.
        + by apply (below_folder q sub path' sub'). }
    unfold getAllFilesInFolder. intros (c & Hc & Hq)%List.in_flat_map.
    destruct (Hfile c p Hq) as [->|(path & sub & -> & Hb)].
    + by apply below_child.
    + by apply (below_folder p children path sub).
  - unfold getAllFilesInFolder. induction 1 as [children Hin|children q sub Hin _ IH].
    + apply List.in_flat_map. exists (TFile p). split; [done|by left].
    + apply List.in_flat_map. exists (TFolder q sub). split; [done|].
      cbn [filesOf]. exact IH.
Qed.

Section SearchVault.

Variable toLowerCase : string -> string.
Variable selected : list string.
Variable lowerQuery : string.
Variable limit : nat.

Local Abbreviation matches :=
  (fun path => includes lowerQuery (toLowerCase path)
               && negb (bool_decide (path ∈ selected))).
Local Abbreviation visit := (MultiPathInput.visit toLowerCase selected lowerQuery limit).
Local Abbreviation walk := (MultiPathInput.walk toLowerCase selected lowerQuery limit).

Lemma take_take_app {A} (k : nat) (r a b : list A) :
  (r ++ take k a) ++ take (k - length (take k a)) b = r ++ take k (a ++ b).
Proof.
  rewrite <- app_assoc. f_equal. rewrite take_app. f_equal.
  rewrite length_take. f_equal. lia.
Qed.

Lemma walk_forall (children : list TAbstractFile) :
  Forall (fun c => forall results, (length results < limit)%nat ->
            visit c results
            = results ++ take (limit - length results)
                              (List.filter matches (pathsOf c))) children ->
  forall results, (length results <= limit)%nat ->
    walk children results
    = results ++ take (limit - length results)
                      (List.filter matches (List.flat_map pathsOf children)).
Proof.
  unfold MultiPathInput.walk.
  induction 1 as [|c cs Hc _ IH]; intros results Hlen; cbn [forUntil List.flat_map].
  - cbn [List.filter]. by rewrite take_nil, app_nil_r.
  - destruct (limit <=? length results)%nat eqn:E.
    + apply Nat.leb_le in E. replace (limit - length results)%nat with 0%nat by lia.
      by rewrite take_0, app_nil_r.
    + apply Nat.leb_gt in E. rewrite (Hc results E), List.filter_app.
      rewrite IH.
      2:{ rewrite length_app, length_take. lia. }
      rewrite length_app. 
      replace (limit - (length results + length (take (limit - length results)
                 (List.filter matches (pathsOf c)))))%nat
        with (limit - length results
              - length (take (limit - length results) (List.filter matches (pathsOf c))))%nat
        by lia.
      apply take_take_app.
Qed.

Lemma visit_spec (child : TAbstractFile) (results : list string) :
  (length results < limit)%nat ->
  visit child results
  = results ++ take (limit - length results) (List.filter matches (pathsOf child)).
Proof.
  revert results. induction child as [p|p children IH] using TAbstractFile_tree_ind;
    intros results Hlen; cbn [MultiPathInput.visit pathsOf pathOf List.filter].
  - destruct (includes lowerQuery (toLowerCase p) && negb (bool_decide (p ∈ selected))).
    + destruct (limit - length results)%nat eqn:E; [lia|]. cbn [take].
      by rewrite take_nil.
    + by rewrite take_nil, app_nil_r.
  - pose proof (walk_forall children IH) as Hwalk.
    unfold MultiPathInput.walk in Hwalk.
    destruct (includes lowerQuery (toLowerCase p) && negb (bool_decide (p ∈ selected))).
    + rewrite Hwalk by (rewrite length_app; cbn; lia).
      rewrite length_app. cbn [length].
      destruct (limit - length results)%nat eqn:E; [lia|].
      rewrite <- app_assoc. cbn [app take]. do 3 f_equal. lia.
    + by rewrite Hwalk by lia.
Qed.

Lemma walk_spec (children : list TAbstractFile) (results : list string) :
  (length results <= limit)%nat ->
  walk children results
  = results ++ take (limit - length results)
                    (List.filter matches (List.flat_map pathsOf children)).
Proof.
  apply walk_forall, Forall_forall. intros c _ r. apply visit_spec.
Qed.

End SearchVault.

(** X19. [searchVault] returns the first [limit] paths of the vault, in
    depth-first order with a folder before what it holds, whose lowered
    path contains the lowered query and which are not yet selected; an
    empty lowered query gives nothing. *)
Theorem searchVault_first_matches (toLowerCase : string -> string)
    (root : list TAbstractFile) (selected : list string) (query : string)
    (limit : nat) :
  MultiPathInput.searchVault toLowerCase root selected query limit
  = if bool_decide (toLowerCase query = EmptyString) then []
    else take limit
           (List.filter
              (fun path => includes (toLowerCase query) (toLowerCase path)
                           && negb (bool_decide (path ∈ selected)))
              (List.flat_map pathsOf root)).
Proof.
  unfold MultiPathInput.searchVault.
  destruct (bool_decide (toLowerCase query = EmptyString)); [reflexivity|].
  rewrite walk_spec by (cbn; lia). cbn [app length]. by rewrite Nat.sub_0_r.
Qed.

Lemma searchVault_sound (toLowerCase : string -> string)
    (root : list TAbstractFile) (selected : list string) (query : string)
    (limit : nat) (path : string) :
  In path (MultiPathInput.searchVault toLowerCase root selected query limit) ->
  ~ In path selected
  /\ includes (toLowerCase query) (toLowerCase path) = true
  /\ In path (List.flat_map pathsOf root).
Proof.
  unfold MultiPathInput.searchVault.
  destruct (bool_decide (toLowerCase query = EmptyString)); [intros []|].
  rewrite walk_spec by (cbn; lia). cbn [app length]. rewrite Nat.sub_0_r.
  intros Hin%list_elem_of_In%subseteq_take%list_elem_of_In.
  apply List.filter_In in Hin as [Hin [Hinc Hsel]%andb_true_iff].
  apply negb_true_iff, bool_decide_eq_false in Hsel. rewrite list_elem_of_In in Hsel.
  auto.
Qed.

(** X20. The suggestions are never more than [limit], never hold a selected
    path, only hold paths of the vault that contain the query, and hold
    every such path when there are at most [limit] of them. *)
Theorem searchVault_bounds (toLowerCase : string -> string)
    (root : list TAbstractFile) (selected : list string) (query : string)
    (limit : nat) :
  (length (MultiPathInput.searchVault toLowerCase root selected query limit) <= limit)%nat
  /\ (forall path,
        In path (MultiPathInput.searchVault toLowerCase root selected query limit) ->
        ~ In path selected
        /\ includes (toLowerCase query) (toLowerCase path) = true
        /\ In path (List.flat_map pathsOf root))
  /\ (forall path,
        toLowerCase query <> EmptyString ->
        (length (List.filter
           (fun path => includes (toLowerCase query) (toLowerCase path)
                        && negb (bool_decide (path ∈ selected)))
           (List.flat_map pathsOf root)) <= limit)%nat ->
        In path (List.flat_map pathsOf root) ->
        includes (toLowerCase query) (toLowerCase path) = true ->
        ~ In path selected ->
        In path (MultiPathInput.searchVault toLowerCase root selected query limit)).
Proof.
  split; [|split].
  - unfold MultiPathInput.searchVault.
    destruct (bool_decide _); [cbn; lia|].
    rewrite walk_spec by (cbn; lia). cbn [app length].
    rewrite Nat.sub_0_r, length_take. lia.
  - intros path. apply searchVault_sound.
  - intros path Hq Hlen Hin Hinc Hsel. unfold MultiPathInput.searchVault.
    rewrite bool_decide_eq_false_2 by done.
    rewrite walk_spec by (cbn; lia). cbn [app length].
    rewrite Nat.sub_0_r, take_ge by done.
    apply List.filter_In. split; [done|]. rewrite Hinc. cbn.
    apply negb_true_iff, bool_decide_eq_false. by rewrite list_elem_of_In.
Qed.

(** ** The selection of the widget *)

Lemma indexOf_Some (path : string) (l : list string) (idx : nat) :
  MultiPathInput.indexOf path l = Some idx ->
  exists a b, l = a ++ path :: b /\ ~ In path a /\ length a = idx.
Proof.
  revert idx. induction l as [|x l IH]; intros idx; cbn [MultiPathInput.indexOf]; [done|].
  destruct (decide (x = path)) as [->|Hne].
  - rewrite bool_decide_eq_true_2 by done. intros [= <-].
    exists [], l. split; [reflexivity|]. split; [intros []|reflexivity].
  - rewrite bool_decide_eq_false_2 by done.
    destruct (MultiPathInput.indexOf path l) as [i|]; [|done].
    intros [= <-]. destruct (IH i eq_refl) as (a & b & -> & Hnin & <-).
    exists (x :: a), b. split; [reflexivity|]. split; [|reflexivity].
    intros [?|?]; [congruence|done].
Qed.

Lemma indexOf_None (path : string) (l : list string) :
  MultiPathInput.indexOf path l = None <-> ~ In path l.
Proof.
  induction l as [|x l IH]; cbn [MultiPathInput.indexOf In]; [tauto|].
  destruct (decide (x = path)) as [->|Hne].
  - rewrite bool_decide_eq_true_2 by done. split; [done|tauto].
  - rewrite bool_decide_eq_false_2 by done.
    destruct (MultiPathInput.indexOf path l) as [i|]; cbn; split; try done.
    + intros Hn. exfalso. apply Hn. right. destruct IH as [IH1 IH2].
      destruct (decide (path ∈ l)) as [Hin|Hnin]; [by apply list_elem_of_In|].
      rewrite list_elem_of_In in Hnin. by specialize (IH2 Hnin).
    + intros _ [?|?]; [done|]. by apply IH.
Qed.

Lemma splice1_middle (a b : list string) (path : string) :
  MultiPathInput.splice1 (length a) (a ++ path :: b) = a ++ b.
Proof.
  unfold MultiPathInput.splice1. rewrite take_app_length. f_equal.
  rewrite (cons_middle path a b), app_assoc.
  replace (S (length a)) with (length (a ++ [path])) by (rewrite length_app; cbn; lia).
  apply drop_app_length.
Qed.

(** The selection after a click on the remove button of [path]. *)
Lemma removeClick_selected (path : string) (st : MultiPathInput.state) :
  (exists a b, MultiPathInput.selected st = a ++ path :: b /\ ~ In path a
               /\ MultiPathInput.selected (MultiPathInput.removeClick path st) = a ++ b)
  \/ (~ In path (MultiPathInput.selected st)
      /\ MultiPathInput.selected (MultiPathInput.removeClick path st)
         = MultiPathInput.selected st).
Proof.
  unfold MultiPathInput.removeClick. cbn [MultiPathInput.selected].
  destruct (MultiPathInput.indexOf path (MultiPathInput.selected st)) as [idx|] eqn:E.
  - left. apply indexOf_Some in E as (a & b & Heq & Hn & <-).
    exists a, b. rewrite Heq. by rewrite splice1_middle.
  - right. by apply indexOf_None in E.
Qed.

Lemma optionClick_inv (path : string) (st : MultiPathInput.state) :
  widgetInv st -> In path (MultiPathInput.options st) ->
  widgetInv (MultiPathInput.optionClick path st).
Proof.
  intros [Hnd Hopt] Hin. split; cbn; [|by intros ? []].
  apply NoDup_ListNoDup, NoDup_app. apply NoDup_ListNoDup in Hnd.
  split; [done|]. split; [|apply NoDup_singleton].
  intros x Hx ->%list_elem_of_singleton. apply (Hopt path Hin). by apply list_elem_of_In.
Qed.

Lemma removeClick_inv (path : string) (st : MultiPathInput.state) :
  widgetInv st -> widgetInv (MultiPathInput.removeClick path st).
Proof.
  intros [Hnd Hopt].
  destruct (removeClick_selected path st) as [(a & b & Heq & Hn & Hsel)|[Hn Hsel]].
  - split.
    + rewrite Hsel. rewrite Heq in Hnd. by apply List.NoDup_remove_1 in Hnd.
    + intros p Hp. rewrite Hsel. intros Hin. apply (Hopt p Hp). rewrite Heq.
      apply List.in_app_iff. apply List.in_app_iff in Hin as [?|?]; [by left|].
      right. by right.
  - split; [by rewrite Hsel|]. intros p Hp. rewrite Hsel. by apply Hopt.
Qed.

Section WidgetProofs.

Variable toLowerCase : string -> string.
Variable trim : string -> string.
Variable root : list TAbstractFile.

Local Abbreviation step := (MultiPathInput.step toLowerCase trim root).
Local Abbreviation run := (MultiPathInput.run toLowerCase trim root).

Lemma step_inv (e : MultiPathInput.event) (st : MultiPathInput.state) :
  widgetInv st -> widgetInv (step e st).
Proof.
  intros Hinv. destruct e as [value| |i| |i|]; cbn [MultiPathInput.step].
  - exact Hinv.
  - unfold MultiPathInput.handleInput. destruct Hinv as [Hnd Hopt].
    destruct (bool_decide _); split; cbn; try done.
    intros path Hin. by apply searchVault_sound in Hin as [? _].
  - destruct (MultiPathInput.options st !! i) as [path|] eqn:E; [|done].
    apply optionClick_inv; [done|].
    apply list_elem_of_In, list_elem_of_lookup. eauto.
  - destruct (MultiPathInput.options st) as [|path rest] eqn:E; [done|].
    apply optionClick_inv; [done|]. rewrite E. by left.
  - destruct (MultiPathInput.selected st !! i); [|done]. by apply removeClick_inv.
  - destruct Hinv as [Hnd _]. split; [done|]. by intros ? [].
Qed.

Lemma run_inv (es : list MultiPathInput.event) (st : MultiPathInput.state) :
  widgetInv st -> widgetInv (run es st).
Proof.
  unfold MultiPathInput.run. revert st.
  induction es as [|e es IH]; intros st Hinv; cbn [List.fold_left]; [done|].
  by apply IH, step_inv.
Qed.

Lemma step_inSync (selected0 : list string) (e : MultiPathInput.event)
    (st : MultiPathInput.state) :
  inSync selected0 st -> inSync selected0 (step e st).
Proof.
  unfold inSync. intros Hsync.
  destruct e as [value| |i| |i|]; cbn [MultiPathInput.step]; try done.
  - unfold MultiPathInput.handleInput. by destruct (bool_decide _).
  - destruct (MultiPathInput.options st !! i); [|done]. cbn. by rewrite last_snoc.
  - destruct (MultiPathInput.options st); [done|]. cbn. by rewrite last_snoc.
  - destruct (MultiPathInput.selected st !! i); [|done].
    unfold MultiPathInput.removeClick. cbn. by rewrite last_snoc.
Qed.

End WidgetProofs.

(** X21. Starting from a selection without repetition, no sequence of
    typing, suggestions, clicks and key presses makes the widget select a
    path twice. *)
Theorem selection_stays_duplicate_free (toLowerCase trim : string -> string)
    (root : list TAbstractFile) (selected0 : list string)
    (es : list MultiPathInput.event) :
  List.NoDup selected0 ->
  List.NoDup (MultiPathInput.selected
                (MultiPathInput.run toLowerCase trim root es
                   (MultiPathInput.create selected0))).
Proof.
  intros Hnd. apply run_inv. split; [done|]. by intros ? [].
Qed.

Lemma selection_stays_duplicate_free_witness :
  List.NoDup
    (MultiPathInput.selected
       (MultiPathInput.run lowerString (fun s => s) vaultRoot
          [MultiPathInput.TypeText "B"; MultiPathInput.Debounced; MultiPathInput.Enter;
           MultiPathInput.ClickRemove 0]
          (MultiPathInput.create ["a.md"]))).
Proof.
  apply selection_stays_duplicate_free.
  constructor; [intros []|constructor].
Defined.

(** X22. Whatever happens to the widget, the selection it shows is the
    array it last handed to [onChange] (the selection it was created with
    if [onChange] was never called). *)
Theorem selection_in_sync_with_onChange (toLowerCase trim : string -> string)
    (root : list TAbstractFile) (selected0 : list string)
    (es : list MultiPathInput.event) :
  MultiPathInput.selected
    (MultiPathInput.run toLowerCase trim root es (MultiPathInput.create selected0))
  = default selected0
      (last (MultiPathInput.changes
               (MultiPathInput.run toLowerCase trim root es
                  (MultiPathInput.create selected0)))).
Proof.
  change (inSync selected0
            (MultiPathInput.run toLowerCase trim root es (MultiPathInput.create selected0))).
  unfold MultiPathInput.run. generalize (MultiPathInput.create selected0),
    (eq_refl : inSync selected0 (MultiPathInput.create selected0)).
  induction es as [|e es IH]; intros st Hsync; cbn [List.fold_left]; [done|].
  by apply IH, step_inSync.
Qed.

(** X23. The remove button of a chip takes the first occurrence of its path
    out of the selection, keeps the rest in order and reports the new
    selection; removing a path right after it was added gives back the
    selection. *)
Theorem removeClick_removes_first_occurrence (st : MultiPathInput.state)
    (a b : list string) (path : string) :
  ~ In path a ->
  MultiPathInput.selected st = a ++ path :: b ->
  MultiPathInput.selected (MultiPathInput.removeClick path st) = a ++ b
  /\ last (MultiPathInput.changes (MultiPathInput.removeClick path st)) = Some (a ++ b)
  /\ MultiPathInput.selected
       (MultiPathInput.removeClick path (MultiPathInput.optionClick path
          (MultiPathInput.mkState a (MultiPathInput.inputValue st)
             (MultiPathInput.options st) (MultiPathInput.noResult st)
             (MultiPathInput.changes st)))) = a.
Proof.
  intros Hn Heq.
  assert (forall st' a' b', ~ In path a' ->
            MultiPathInput.selected st' = a' ++ path :: b' ->
            MultiPathInput.selected (MultiPathInput.removeClick path st') = a' ++ b')
    as Hrem.
  { intros st' a' b' Hn' Heq'.
    destruct (removeClick_selected path st') as [(a2 & b2 & Heq2 & Hn2 & Hsel)|[Hnin _]].
    - rewrite Hsel. rewrite Heq' in Heq2.
      assert (a' = a2) as ->.
      { clear -Hn' Hn2 Heq2. revert a2 Hn2 Heq2.
        induction a' as [|x a' IH]; intros [|y a2] Hn2 Heq2; cbn in *; try done.
        - injection Heq2 as -> _. destruct Hn2. by left.
        - injection Heq2 as -> _. destruct Hn'. by left.
        - injection Heq2 as -> Heq2. f_equal. apply IH; [tauto|tauto|done]. }
      apply app_inv_head in Heq2. by injection Heq2 as ->.
    - destruct Hnin. rewrite Heq'. apply List.in_app_iff. right. by left. }
  split; [by apply Hrem|]. split.
  - unfold MultiPathInput.removeClick at 1. cbn [MultiPathInput.changes].
    rewrite last_snoc. f_equal.
    change (MultiPathInput.selected (MultiPathInput.removeClick path st) = a ++ b).
    by apply Hrem.
  - rewrite (Hrem _ a []); [by rewrite app_nil_r|done|reflexivity].
Qed.

Lemma removeClick_removes_first_occurrence_witness :
  MultiPathInput.selected
    (MultiPathInput.removeClick "a.md"
       (MultiPathInput.mkState ["notes"; "a.md"; "b.md"; "a.md"] "" [] false []))
  = ["notes"; "b.md"; "a.md"].
Proof.
  apply (removeClick_removes_first_occurrence
           (MultiPathInput.mkState ["notes"; "a.md"; "b.md"; "a.md"] "" [] false [])
           ["notes"] ["b.md"; "a.md"] "a.md").
  - intros [H|[]]. discriminate H.
  - reflexivity.
Defined.

(** ** The synchronisation timer *)







(** ** The debounce of the input *)

Lemma debounce_step_inv (e : Debounce.event) (st : Debounce.state) :
  Debounce.inv st ->
  Debounce.inv (Debounce.step e st)
  /\ (Debounce.handled (Debounce.step e st) + length (Debounce.pending (Debounce.step e st))
      <= Debounce.handled st + length (Debounce.pending st)
         + (if Debounce.isInput e then 1 else 0))%nat.
Proof.
  intros (Hpos & Hpending). destruct e as [|id|]; cbn [Debounce.step Debounce.isInput].
  - unfold Debounce.debounce, Debounce.inv.
    cbn [Debounce.pending Debounce.nextId Debounce.inputTimeout Debounce.handled].
    destruct Hpending as [Hnil|(id & Hone & Htimeout & Hid)].
    + rewrite Hnil.
      assert (match Debounce.inputTimeout st with
              | Some id => if bool_decide (id = 0%nat) then []
                           else List.filter (fun t => negb (bool_decide (t = id))) []
              | None => []
              end = @nil nat) as ->.
      { destruct (Debounce.inputTimeout st); [|done]. by destruct (bool_decide _). }
      cbn. split; [|lia]. split; [lia|]. right. eexists. repeat split. lia.
    + rewrite Hone, Htimeout. rewrite bool_decide_eq_false_2 by lia.
      cbn [List.filter]. rewrite bool_decide_eq_true_2 by done. cbn.
      split; [|lia]. split; [lia|]. right. eexists. repeat split. lia.
  - unfold Debounce.fire. destruct (decide (id ∈ Debounce.pending st)) as [Hin|Hin].
    + rewrite bool_decide_eq_true_2 by done.
      destruct Hpending as [Hnil|(id' & Hone & Htimeout & Hid)].
      * rewrite Hnil in Hin. by apply not_elem_of_nil in Hin.
      * rewrite Hone in Hin. apply list_elem_of_singleton in Hin as ->.
        unfold Debounce.inv. cbn. rewrite Hone. cbn [List.filter].
        rewrite bool_decide_eq_true_2 by done. cbn. split; [|lia]. split; [done|by left].
    + rewrite bool_decide_eq_false_2 by done. split; [by split|lia].
  - unfold Debounce.inv. cbn. split; [|lia]. split; [lia|done].
Qed.

(** X26. While the ids of the window's timers are positive, at most one
    timeout of the debounce is pending at any time, whatever is typed and
    whichever timers fire: a new input clears the timeout of the previous
    one, so [handleInput] runs at most once for every input and only for
    a timeout that was not replaced. *)
Theorem debounce_one_pending_timeout (es : list Debounce.event) (st0 : Debounce.state) :
  (0 < Debounce.nextId st0)%nat ->
  Debounce.pending st0 = [] ->
  (length (Debounce.pending (Debounce.run es st0)) <= 1)%nat
  /\ (Debounce.handled (Debounce.run es st0)
      + length (Debounce.pending (Debounce.run es st0))
      <= Debounce.handled st0 + length (List.filter Debounce.isInput es))%nat.
Proof.
  intros Hpos Hnil.
  assert (Debounce.inv st0) as Hinv by (split; [done|by left]).
  assert (Debounce.inv (Debounce.run es st0)
          /\ (Debounce.handled (Debounce.run es st0)
              + length (Debounce.pending (Debounce.run es st0))
              <= Debounce.handled st0 + length (Debounce.pending st0)
                 + length (List.filter Debounce.isInput es))%nat) as [Hend Hcount].
  { clear Hnil Hpos. revert st0 Hinv. unfold Debounce.run.
    induction es as [|e es IH]; intros st Hinv; cbn [List.fold_left List.filter].
    - split; [done|cbn; lia].
    - destruct (debounce_step_inv e st Hinv) as [Hinv' Hstep].
      destruct (IH _ Hinv') as [Hend Hcount]. split; [done|].
      destruct (Debounce.isInput e); cbn [length]; lia. }
  rewrite Hnil in Hcount. cbn [length] in Hcount. split; [|lia].
  destruct Hend as (_ & [->|(id & -> & _)]); cbn; lia.
Qed.

Lemma debounce_one_pending_timeout_witness :
  (length (Debounce.pending
     (Debounce.run [Debounce.Input; Debounce.Input; Debounce.Fire 1; Debounce.Fire 2]
        (Debounce.mkState [] 1 None 0))) <= 1)%nat
  /\ (Debounce.handled
        (Debounce.run [Debounce.Input; Debounce.Input; Debounce.Fire 1; Debounce.Fire 2]
           (Debounce.mkState [] 1 None 0))
      + length (Debounce.pending
          (Debounce.run [Debounce.Input; Debounce.Input; Debounce.Fire 1; Debounce.Fire 2]
             (Debounce.mkState [] 1 None 0)))
      <= 0 + 2)%nat.
Proof.
  apply (debounce_one_pending_timeout
           [Debounce.Input; Debounce.Input; Debounce.Fire 1; Debounce.Fire 2]
           (Debounce.mkState [] 1 None 0)).
  - cbn. lia.
  - reflexivity.
Defined.
